(** * CozIR CO2 data logger: the acquisition and control loop

    A shallow embedding of [co2_env_chamber_6.py]: the frame parser
    [extract_values] (UTF-8 decoding, the compiled regular expression
    [pattern] and its [search]), the bounded [deque] holding the last
    readings, the CO2 valve decision and the body of the [while True]
    loop, followed by the properties of the acquisition loop.

    Conventions of the model.
    - [bytes] objects are [list byte]; a decoded [str] is the list of its
      code points ([list N]).
    - A Python computation that may raise is a value of [Py.result]:
      [Py.Return v] or [Py.Raise e].  Nothing in the script catches an
      exception, so a [Raise] in the loop body ends the process.
    - [int / 10] produces a [float]; the model keeps the exact quotient as a
      rational of [Q]: the rounding to binary64 and the range of [float]
      are not modelled, and [int] is taken without a limit on the number of
      digits.
    - [datetime.datetime.now()] reads the wall clock; the clock value read
      during a call is an argument of the model ([now]).
    - The serial port, the GPIO line, the CSV file and the Matplotlib axes
      are external; the model records what the loop sends to each of them
      (fields of [state]).  Console output ([print]) is not recorded. *)

From Stdlib Require Import Strings.Byte Strings.Ascii Strings.String.
From Stdlib Require Import List Bool Arith NArith ZArith QArith Lia.
Import ListNotations.

Close Scope Q_scope.
Set Implicit Arguments.

(** ** Python results and exceptions *)

Module Py.

Inductive exn : Set :=
| UnicodeDecodeError   (* bytes.decode('utf-8') on ill-formed input *)
| TypeError            (* int < None *)
| ValueError           (* int() of a non-numeral; unpacking of the wrong arity *)
| IndexError.          (* match.group(i) with no such group *)

Inductive result (A : Type) : Type :=
| Return (a : A)
| Raise (e : exn).

Arguments Return {A} a.
Arguments Raise {A} e.

Definition bind {A B : Type} (m : result A) (k : A -> result B) : result B :=
  match m with
  | Return a => k a
  | Raise e => Raise e
  end.

Definition returned {A : Type} (m : result A) : bool :=
  match m with Return _ => true | Raise _ => false end.

End Py.

Import Py.

Declare Scope py_scope.
Delimit Scope py_scope with py.
Notation "x <- m ;; k" := (Py.bind m (fun x => k))
  (at level 61, m at next level, right associativity) : py_scope.
Notation "' p <- m ;; k" := (Py.bind m (fun x => match x with p => k end))
  (at level 61, p pattern, m at next level, right associativity) : py_scope.
Open Scope py_scope.

(** ** [bytes.decode('utf-8')]

    The strict decoder: shortest-form sequences only, no surrogates, nothing
    above U+10FFFF.  [None] stands for [UnicodeDecodeError]. *)

Module Utf8.

Definition between (lo hi b : N) : bool := ((lo <=? b) && (b <=? hi))%N.

(** Payload of a continuation byte. *)
Definition low6 (b : N) : N := N.land b 0x3F.

(** For a lead byte: the bits it contributes and the admissible range of
    the byte that follows it; the number of continuation bytes is given by
    [width]. *)
Definition width (b0 : N) : nat :=
  if (b0 <? 0x80)%N then 0
  else if between 0xC2 0xDF b0 then 1
  else if between 0xE0 0xEF b0 then 2
  else if between 0xF0 0xF4 b0 then 3
  else 4.    (* 0x80..0xC1 and 0xF5..0xFF never start a sequence *)

Definition second_lo (b0 : N) : N :=
  if (b0 =? 0xE0)%N then 0xA0 else if (b0 =? 0xF0)%N then 0x90 else 0x80.

Definition second_hi (b0 : N) : N :=
  if (b0 =? 0xED)%N then 0x9F else if (b0 =? 0xF4)%N then 0x8F else 0xBF.

Definition second_ok (b0 b1 : N) : bool := between (second_lo b0) (second_hi b0) b1.
Definition cont (b : N) : bool := between 0x80 0xBF b.

Definition cp2 (b0 b1 : N) : N :=
  N.lor (N.shiftl (N.land b0 0x1F) 6) (low6 b1).
Definition cp3 (b0 b1 b2 : N) : N :=
  N.lor (N.shiftl (N.land b0 0x0F) 12) (N.lor (N.shiftl (low6 b1) 6) (low6 b2)).
Definition cp4 (b0 b1 b2 b3 : N) : N :=
  N.lor (N.shiftl (N.land b0 0x07) 18)
    (N.lor (N.shiftl (low6 b1) 12) (N.lor (N.shiftl (low6 b2) 6) (low6 b3))).

Definition push (c : N) (r : option (list N)) : option (list N) :=
  option_map (cons c) r.

Fixpoint decode (bs : list byte) : option (list N) :=
  match bs with
  | [] => Some []
  | x0 :: r0 =>
      let b0 := Byte.to_N x0 in
      match width b0 with
      | 0 => push b0 (decode r0)
      | 1 =>
          match r0 with
          | x1 :: r1 =>
              let b1 := Byte.to_N x1 in
              if cont b1 then push (cp2 b0 b1) (decode r1) else None
          | _ => None
          end
      | 2 =>
          match r0 with
          | x1 :: x2 :: r2 =>
              let b1 := Byte.to_N x1 in
              let b2 := Byte.to_N x2 in
              if second_ok b0 b1 && cont b2
              then push (cp3 b0 b1 b2) (decode r2) else None
          | _ => None
          end
      | 3 =>
          match r0 with
          | x1 :: x2 :: x3 :: r3 =>
              let b1 := Byte.to_N x1 in
              let b2 := Byte.to_N x2 in
              let b3 := Byte.to_N x3 in
              if second_ok b0 b1 && cont b2 && cont b3
              then push (cp4 b0 b1 b2 b3) (decode r3) else None
          | _ => None
          end
      | _ => None
      end
  end.

End Utf8.

(** [data_str.decode('utf-8')] *)
Definition bytes_decode (data_str : list byte) : result (list N) :=
  match Utf8.decode data_str with
  | Some s => Return s
  | None => Raise UnicodeDecodeError
  end.

(** ** Character classes of [re] on [str] patterns

    For a [str] pattern [\s] and [\d] are Unicode aware: [\s] is
    [str.isspace] and [\d] is the decimal digits (category Nd).  The tables
    are those of the Unicode database 14.0.0 of CPython 3.11. *)

Module Unicode.

(** The white-space code points. *)
Definition spaces : list N :=
  [0x09; 0x0A; 0x0B; 0x0C; 0x0D; 0x1C; 0x1D; 0x1E; 0x1F; 0x20; 0x85; 0xA0;
   0x1680; 0x2000; 0x2001; 0x2002; 0x2003; 0x2004; 0x2005; 0x2006; 0x2007;
   0x2008; 0x2009; 0x200A; 0x2028; 0x2029; 0x202F; 0x205F; 0x3000]%N.

Definition isspace (c : N) : bool := existsb (N.eqb c) spaces.

(** Every run of decimal digits of the database is ten consecutive code
    points for the values 0 to 9; the list gives the code point of each
    zero. *)
Definition zeros : list N :=
  [0x30; 0x660; 0x6F0; 0x7C0; 0x966; 0x9E6; 0xA66; 0xAE6; 0xB66; 0xBE6;
   0xC66; 0xCE6; 0xD66; 0xDE6; 0xE50; 0xED0; 0xF20; 0x1040; 0x1090; 0x17E0;
   0x1810; 0x1946; 0x19D0; 0x1A80; 0x1A90; 0x1B50; 0x1BB0; 0x1C40; 0x1C50;
   0xA620; 0xA8D0; 0xA900; 0xA9D0; 0xA9F0; 0xAA50; 0xABF0; 0xFF10; 0x104A0;
   0x10D30; 0x11066; 0x110F0; 0x11136; 0x111D0; 0x112F0; 0x11450; 0x114D0;
   0x11650; 0x116C0; 0x11730; 0x118E0; 0x11950; 0x11C50; 0x11D50; 0x11DA0;
   0x16A60; 0x16AC0; 0x16B50; 0x1D7CE; 0x1D7D8; 0x1D7E2; 0x1D7EC; 0x1D7F6;
   0x1E140; 0x1E2F0; 0x1E950; 0x1FBF0]%N.

Definition in_run (c z : N) : bool := ((z <=? c) && (c <? z + 10))%N.

(** The decimal value of a code point, when it is a decimal digit. *)
Definition decimal (c : N) : option N :=
  option_map (fun z => (c - z)%N) (find (in_run c) zeros).

Definition isdecimal (c : N) : bool :=
  match decimal c with Some _ => true | None => false end.

End Unicode.

(** ** The regular expression engine

    The fragment of [re] that [pattern] uses: a literal character, a greedy
    star of a character class, and a capturing group around a greedy plus
    of a character class.  Matching is by backtracking, longest repetition
    first, as in [sre]. *)

Module Re.

Inductive cclass : Set :=
| Space    (* \s *)
| Digit.   (* \d *)

Inductive node : Set :=
| Lit (c : N)         (* the character c *)
| Star (k : cclass)   (* k*   *)
| Group (k : cclass). (* (k+) *)

Definition regex : Set := list node.

Definition in_class (k : cclass) (c : N) : bool :=
  match k with
  | Space => Unicode.isspace c
  | Digit => Unicode.isdecimal c
  end.

(** [greedy p k acc s]: repeat [p] on [s] as often as possible, [acc]
    being what the repetition has consumed so far, then run the
    continuation [k] on the consumed text and the rest; when [k] fails,
    give one character back and try again. *)
Fixpoint greedy {R : Type} (p : N -> bool)
    (k : list N -> list N -> option R) (acc s : list N) : option R :=
  match s with
  | c :: s' =>
      if p c then
        match greedy p k (acc ++ [c]) s' with
        | Some r => Some r
        | None => k acc s
        end
      else k acc s
  | [] => k acc s
  end.

(** [match_here re s]: match [re] at the start of [s]; the result is the
    text of the capturing groups, in order. *)
Fixpoint match_here (re : regex) (s : list N) : option (list (list N)) :=
  match re with
  | [] => Some []
  | Lit c :: re' =>
      match s with
      | x :: s' => if (x =? c)%N then match_here re' s' else None
      | [] => None
      end
  | Star k :: re' =>
      greedy (in_class k) (fun _ rest => match_here re' rest) [] s
  | Group k :: re' =>
      match s with
      | x :: s' =>
          if in_class k x then
            greedy (in_class k)
              (fun g rest => option_map (cons g) (match_here re' rest))
              [x] s'
          else None
      | [] => None
      end
  end.

(** [re.search s]: the match at the leftmost position that has one. *)
Fixpoint search (re : regex) (s : list N) : option (list (list N)) :=
  match match_here re s with
  | Some m => Some m
  | None =>
      match s with
      | [] => None
      | _ :: s' => search re s'
      end
  end.

(** [m.group(i)], for [i >= 1]. *)
Definition group (m : list (list N)) (i : nat) : result (list N) :=
  match nth_error m (i - 1) with
  | Some g => Return g
  | None => Raise IndexError
  end.

End Re.

(** ** [int(s)] on a string of decimal digits

    [int] also accepts a sign, surrounding white space and underscores; the
    groups of [pattern] contain digits only, so the model covers numerals
    made of decimal digits and raises [ValueError] on anything else. *)

Fixpoint int_digits (acc : N) (s : list N) : option N :=
  match s with
  | [] => Some acc
  | c :: s' =>
      match Unicode.decimal c with
      | Some d => int_digits (acc * 10 + d) s'
      | None => None
      end
  end.

Definition int (s : list N) : result Z :=
  match s with
  | [] => Raise ValueError
  | _ =>
      match int_digits 0 s with
      | Some n => Return (Z.of_N n)
      | None => Raise ValueError
      end
  end.

(** [n / d] for an [int] [n] and a positive literal [d]. *)
Definition truediv (n : Z) (d : positive) : Q := n # d.

(** ** The script *)

(** [pattern = re.compile(r'H\s*(\d+)\s*T\s*(\d+)\s*Z\s*(\d+)')] *)
Definition ord (a : ascii) : N := N_of_ascii a.

Definition pattern : Re.regex :=
  [Re.Lit (ord "H"); Re.Star Re.Space; Re.Group Re.Digit; Re.Star Re.Space;
   Re.Lit (ord "T"); Re.Star Re.Space; Re.Group Re.Digit; Re.Star Re.Space;
   Re.Lit (ord "Z"); Re.Star Re.Space; Re.Group Re.Digit].

(** A [datetime]: the reading of the wall clock. *)
Definition datetime : Set := N.

(** What [extract_values] returns: a 4-tuple whose components are values or
    [None]. *)
Definition quadruple : Type := option datetime * option Q * option Q * option Z.

Definition nones : quadruple := (None, None, None, None).

Definition extract_values (now : datetime) (data_str : list byte) : result quadruple :=
  data_str <- bytes_decode data_str ;;
  match Re.search pattern data_str with
  | Some m =>
      g1 <- Re.group m 1 ;;
      n1 <- int g1 ;;
      let h_value := truediv n1 10 in
      g2 <- Re.group m 2 ;;
      n2 <- int g2 ;;
      let t_value := truediv (n2 - 1000) 10 in
      g3 <- Re.group m 3 ;;
      z_value <- int g3 ;;
      let current_dtime := now in
      Return (Some current_dtime, Some h_value, Some t_value, Some z_value)
  | None => Return nones
  end.

(** A data point of the deque: [(current_dtime, h_value, t_value, z_value)]. *)
Definition reading : Type := datetime * Q * Q * Z.

(** [collections.deque(maxlen=...)]: [append] adds on the right and, when
    the length then exceeds [maxlen], removes the leftmost element. *)
Module Deque.

Definition append {A : Type} (maxlen : nat) (d : list A) (x : A) : list A :=
  let d' := d ++ [x] in
  if maxlen <? length d' then tl d' else d'.

(** The deque after appending the elements of [xs], oldest first. *)
Definition appends {A : Type} (maxlen : nat) (d : list A) (xs : list A) : list A :=
  fold_left (append maxlen) xs d.

End Deque.

Definition maxlen : nat := 60.         (* data = deque(maxlen=60) *)
Definition plot_interval : nat := 10.

(** [plot_trends(data)]: [zip( *data )] transposes the data points into the
    four series; on an empty deque it yields nothing and the unpacking into
    four names raises [ValueError].  The series then go to the axes. *)
Definition series : Type := list datetime * list Q * list Q * list Z.

Definition zip_star (data : list reading) : option series :=
  match data with
  | [] => None
  | _ =>
      Some (map (fun r => fst (fst (fst r))) data,
            map (fun r => snd (fst (fst r))) data,
            map (fun r => snd (fst r)) data,
            map (fun r => snd r) data)
  end.

Definition plot_trends (data : list reading) : result series :=
  match zip_star data with
  | Some s => Return s
  | None => Raise ValueError
  end.

(** [a < b] on values that are an [int] or [None]. *)
Definition py_lt (a b : option Z) : result bool :=
  match a, b with
  | Some x, Some y => Return (x <? y)%Z
  | _, _ => Raise TypeError
  end.

(** [420 < z_value < 510]: the right comparison is evaluated only when the
    left one holds. *)
Definition in_band (z_value : option Z) : result bool :=
  lo <- py_lt (Some 420%Z) z_value ;;
  if lo then py_lt z_value (Some 510%Z) else Return false.

(** Levels of the valve pin. *)
Definition OFF : bool := false.
Definition ON : bool := true.

(** The level that the loop writes to the valve pin. *)
Definition valve_level (z_value : option Z) : result bool :=
  b <- in_band z_value ;;
  Return (if b then OFF else ON).

(** What the loop has sent to its collaborators. *)
Record state : Type := mkState {
  data : list reading;          (* the deque *)
  csv : list reading;           (* rows written to the CSV file, in order *)
  gpio : list bool;             (* levels written to Co2_valve, in order *)
  plots : list (list reading)   (* the deque at each call of plot_trends *)
}.

Definition initial : state := mkState [] [] [] [].

Definition gpio_output (st : state) (level : bool) : state :=
  mkState (data st) (csv st) (gpio st ++ [level]) (plots st).

Definition data_append (st : state) (r : reading) : state :=
  mkState (Deque.append maxlen (data st) r) (csv st) (gpio st) (plots st).

Definition writerow (st : state) (r : reading) : state :=
  mkState (data st) (csv st ++ [r]) (gpio st) (plots st).

Definition plotted (st : state) : state :=
  mkState (data st) (csv st) (gpio st) (plots st ++ [data st]).

(** [None not in (current_dtime, h_value, t_value, z_value)] *)
Definition all_present (q : quadruple) : option reading :=
  match q with
  | (Some d, Some h, Some t, Some z) => Some (d, h, t, z)
  | _ => None
  end.

(** One iteration of the [while True] loop on the line [sensor_data]
    returned by [serial_data.readline()]. *)
Definition loop_body (st : state) (now : datetime) (sensor_data : list byte) : result state :=
  '(current_dtime, h_value, t_value, z_value) <- extract_values now sensor_data ;;
  level <- valve_level z_value ;;
  let st := gpio_output st level in
  match all_present (current_dtime, h_value, t_value, z_value) with
  | Some r =>
      let st := data_append st r in
      let st := writerow st r in
      if plot_interval <=? length (data st) then
        _ <- plot_trends (data st) ;;
        Return (plotted st)
      else Return st
  | None => Return st
  end.

(** The loop over the lines that the serial port delivers, each with the
    clock value of its iteration. *)
Fixpoint run (st : state) (lines : list (datetime * list byte)) : result state :=
  match lines with
  | [] => Return st
  | (now, sensor_data) :: rest =>
      st' <- loop_body st now sensor_data ;;
      run st' rest
  end.

(** ** The path of the CSV file

    [os.path.join] and [os.path.dirname] of [posixpath], on two
    components; a path is the list of its code points. *)

Module Posixpath.

Definition sep : N := 47.   (* "/" *)

Definition startswith_sep (p : list N) : bool :=
  match p with
  | c :: _ => (c =? sep)%N
  | [] => false
  end.

Fixpoint endswith_sep (p : list N) : bool :=
  match p with
  | [] => false
  | [c] => (c =? sep)%N
  | _ :: p' => endswith_sep p'
  end.

(** [join(a, b)]: an absolute [b] replaces [a]; otherwise [b] is added
    after [a], with a separator unless [a] is empty or ends with one. *)
Definition join (a b : list N) : list N :=
  if startswith_sep b then b
  else
    match a with
    | [] => a ++ b
    | _ => if endswith_sep a then a ++ b else a ++ sep :: b
    end.

(** [p.rfind(sep)]: the index of the last separator, or [-1]. *)
Fixpoint rfind_sep (p : list N) : Z :=
  match p with
  | [] => (-1)%Z
  | c :: p' =>
      let i := rfind_sep p' in
      if (0 <=? i)%Z then (i + 1)%Z
      else if (c =? sep)%N then 0%Z else (-1)%Z
  end.

(** [p.rstrip(sep)] *)
Fixpoint rstrip_sep (p : list N) : list N :=
  match p with
  | [] => []
  | c :: p' =>
      match rstrip_sep p' with
      | [] => if (c =? sep)%N then [] else [c]
      | r => c :: r
      end
  end.

(** [head == sep*len(head)] *)
Definition only_sep (head : list N) : bool := forallb (fun c => (c =? sep)%N) head.

Definition dirname (p : list N) : list N :=
  let i := (rfind_sep p + 1)%Z in
  let head := firstn (Z.to_nat i) p in
  match head with
  | [] => head
  | _ => if only_sep head then head else rstrip_sep head
  end.

End Posixpath.

Definition default_dir : list N := map Byte.to_N (list_byte_of_string "/home/cnce").

(** The path computed from the two answers of the user: a blank directory
    stands for [default_dir], and the file is [file_name] with [".csv"]. *)
Definition file_path (file_name file_dir : list N) : list N :=
  let file_dir := match file_dir with [] => default_dir | _ => file_dir end in
  Posixpath.join file_dir (file_name ++ map Byte.to_N (list_byte_of_string ".csv")).

(** The directory given to [os.makedirs]. *)
Definition csv_dir (file_name file_dir : list N) : list N :=
  Posixpath.dirname (file_path file_name file_dir).

(** ** The limits of the time axis

    [ax3.set_xlim(min(timestamps), max(timestamps))]; [min] and [max] of an
    empty sequence raise [ValueError]. *)

Definition py_min (l : list N) : result N :=
  match l with
  | [] => Raise ValueError
  | x :: l' => Return (fold_left N.min l' x)
  end.

Definition py_max (l : list N) : result N :=
  match l with
  | [] => Raise ValueError
  | x :: l' => Return (fold_left N.max l' x)
  end.

Definition set_xlim (data : list reading) : result (N * N) :=
  '(timestamps, h_values, t_values, z_values) <- plot_trends data ;;
  lo <- py_min timestamps ;;
  hi <- py_max timestamps ;;
  Return (lo, hi).

(** ** Frames

    The text of a frame ["H<a> T<b> Z<c>"], as the bytes on the wire. *)

Definition bytes (s : string) : list byte := list_byte_of_string s.

(** The decimal digits of [n], most significant first. *)
Fixpoint digits (fuel : nat) (n : N) : list N :=
  match fuel with
  | O => []
  | S fuel' =>
      if (n <? 10)%N then [n]
      else digits fuel' (n / 10)%N ++ [(n mod 10)%N]
  end.

Definition digit_byte (d : N) : byte :=
  match Byte.of_N (48 + d) with
  | Some b => b
  | None => Byte.x30
  end.

(** [str(n)] encoded in ASCII. *)
Definition numeral (n : N) : list byte :=
  map digit_byte (digits (S (N.to_nat (N.log2 n))) n).

Definition frame (a b c : N) : list byte :=
  bytes "H" ++ numeral a ++ bytes " T" ++ numeral b ++ bytes " Z" ++ numeral c.

(** Frames whose CO2 fields are the given values. *)
Definition frames_of_co2 (zs : list N) : list (datetime * list byte) :=
  map (fun z => (0%N, frame 450 1234 z)) zs.

(** ** Vocabulary of the properties *)

(** The code points of an ASCII text. *)
Definition str (s : string) : list N := map Byte.to_N (bytes s).

(** The code points of [str(n)]. *)
Definition codes (n : N) : list N := map Byte.to_N (numeral n).

Definition is_ascii (b : byte) : bool := (Byte.to_N b <? 0x80)%N.

(** [stops p s]: a repetition of [p] cannot go into [s]. *)
Definition stops (p : N -> bool) (s : list N) : Prop :=
  match s with
  | [] => True
  | c :: _ => p c = false
  end.

(** White space only, possibly none. *)
Definition blank (w : list N) : Prop := forallb Unicode.isspace w = true.

(** One decimal digit or more. *)
Definition number (d : list N) : Prop :=
  d <> [] /\ forallb Unicode.isdecimal d = true.

(** The three groups in the order H, T, Z, with white space only between a
    marker and its digits and between the groups, followed by [post]. *)
Definition spaced (w1 d1 w2 w3 d2 w4 w5 d3 post : list N) : list N :=
  ord "H" :: w1 ++ d1 ++ w2 ++ ord "T" :: w3 ++ d2 ++ w4 ++ ord "Z" :: w5 ++ d3 ++ post.

(** The quadruple of a successful parse with the integers [a], [b], [c]. *)
Definition parsed (now : datetime) (a b c : N) : quadruple :=
  (Some now, Some (truediv (Z.of_N a) 10),
   Some (truediv (Z.of_N b - 1000) 10), Some (Z.of_N c)).

(** The state after an iteration that parsed the reading [r] and wrote
    [level] to the valve. *)
Definition recorded (st : state) (level : bool) (r : reading) : state :=
  let d := Deque.append maxlen (data st) r in
  mkState d (csv st ++ [r]) (gpio st ++ [level])
    (if plot_interval <=? length d then plots st ++ [d] else plots st).

Definition reading_of (now : datetime) (a b c : N) : reading :=
  (now, truediv (Z.of_N a) 10, truediv (Z.of_N b - 1000) 10, Z.of_N c).

(** The line parses: [extract_values] returns a reading. *)
Definition parses (l : datetime * list byte) : Prop :=
  exists a b c, extract_values (fst l) (snd l) = Return (parsed (fst l) a b c).

(** The last [m] elements of [xs], in order. *)
Definition lastn {A : Type} (m : nat) (xs : list A) : list A :=
  skipn (length xs - m) xs.

(** The reading that an iteration records for a line, if the line parses. *)
Definition reading_at (l : datetime * list byte) : option reading :=
  match extract_values (fst l) (snd l) with
  | Return q => all_present q
  | Raise _ => None
  end.

(** The readings of the lines that parse, in order. *)
Definition readings (lines : list (datetime * list byte)) : list reading :=
  flat_map (fun l => match reading_at l with Some r => [r] | None => [] end) lines.

(** The level written to the valve for a reading. *)
Definition level_of (r : reading) : bool :=
  negb ((420 <? snd r)%Z && (snd r <? 510)%Z).

(** The last [maxlen] of the readings [rs]. *)
Definition window (rs : list reading) : list reading :=
  skipn (length rs - maxlen) rs.

(** The windows after the first [plot_interval] readings, after one more,
    and so on up to all of [rs]. *)
Definition plots_of (rs : list reading) : list (list reading) :=
  map (fun i => window (firstn i rs))
      (seq plot_interval (length rs - (plot_interval - 1))).

(** What the loop has sent out once it has recorded the readings [rs]. *)
Definition trace (rs : list reading) : state :=
  mkState (window rs) rs (map level_of rs) (plots_of rs).

(** Bytes that occur in no UTF-8 sequence. *)
Definition never_in_utf8 (b : byte) : bool :=
  let n := Byte.to_N b in
  ((n =? 0xC0) || (n =? 0xC1) || (0xF5 <=? n))%N.

(** Unicode scalar values: code points that are not surrogates. *)
Definition scalar (c : N) : Prop :=
  (c < 0xD800 \/ 0xE000 <= c < 0x110000)%N.



(** The directory in force: the answer of the user, or [default_dir] for a
    blank answer. *)
Definition chosen_dir (file_dir : list N) : list N :=
  match file_dir with [] => default_dir | _ => file_dir end.

(** The decimal digits at the start of a text. *)
Fixpoint leading_digits (s : list N) : list N :=
  match s with
  | c :: s' => if Unicode.isdecimal c then c :: leading_digits s' else []
  | [] => []
  end.

(** * Properties *)

(** ** Character classes *)

Section Classes.

Import Unicode.

Lemma isspace_spec (c : N) : isspace c = true <-> In c spaces.
Proof.
  unfold isspace. rewrite existsb_exists. split.
  - intros [x [Hin Heq]]. apply N.eqb_eq in Heq. now subst.
  - intros Hin. exists c. split; [assumption | apply N.eqb_refl].
Qed.

(** No white-space character is a decimal digit. *)
Lemma space_not_decimal (c : N) : isspace c = true -> isdecimal c = false.
Proof.
  rewrite isspace_spec. unfold spaces. intros Hin.
  repeat (destruct Hin as [<- | Hin]; [reflexivity | ]). destruct Hin.
Qed.

Lemma decimal_not_space (c : N) : isdecimal c = true -> isspace c = false.
Proof.
  intros Hd. destruct (isspace c) eqn:Hs; [ | reflexivity].
  apply space_not_decimal in Hs. congruence.
Qed.

(** The ASCII digits and their values. *)
Lemma decimal_ascii (d : N) : (d < 10)%N -> decimal (48 + d) = Some d.
Proof.
  intros Hd.
  assert (H : In d [0; 1; 2; 3; 4; 5; 6; 7; 8; 9]%N).
  { simpl. lia. }
  simpl in H.
  repeat (destruct H as [<- | H]; [reflexivity | ]). destruct H.
Qed.

Lemma isdecimal_ascii (d : N) : (d < 10)%N -> isdecimal (48 + d) = true.
Proof. intros Hd. unfold isdecimal. now rewrite decimal_ascii. Qed.

End Classes.

(** ** Decoding ASCII *)

Lemma decode_ascii (bs : list byte) :
  forallb is_ascii bs = true -> Utf8.decode bs = Some (map Byte.to_N bs).
Proof.
  induction bs as [ | b bs IH]; simpl; [reflexivity | ].
  intros H. apply andb_true_iff in H. destruct H as [Hb Hbs].
  unfold is_ascii in Hb. unfold Utf8.width. rewrite Hb.
  rewrite (IH Hbs). reflexivity.
Qed.

(** ** The matcher *)

Section Matcher.

Import Re.

Variable R : Type.
Variable p : N -> bool.
Variable k : list N -> list N -> option R.

(** A repetition that can take all of [w] and no more, and whose
    continuation then succeeds, takes [w]. *)
Lemma greedy_run (w : list N) :
  forall acc rest r,
    forallb p w = true -> stops p rest ->
    k (acc ++ w) rest = Some r ->
    greedy p k acc (w ++ rest) = Some r.
Proof.
  induction w as [ | c w IH]; intros acc rest r Hw Hstop Hk.
  - rewrite app_nil_r in Hk. simpl.
    destruct rest as [ | x rest]; simpl; [assumption | ].
    simpl in Hstop. now rewrite Hstop.
  - simpl in Hw. apply andb_true_iff in Hw. destruct Hw as [Hc Hw].
    simpl. rewrite Hc.
    rewrite (IH (acc ++ [c]) rest r Hw Hstop); [reflexivity | ].
    now rewrite <- app_assoc.
Qed.

(** Whatever a repetition returns, its continuation returned, after a
    prefix of [p]-characters. *)
Lemma greedy_inv (s : list N) :
  forall acc r,
    greedy p k acc s = Some r ->
    exists w rest,
      s = w ++ rest /\ forallb p w = true /\ k (acc ++ w) rest = Some r.
Proof.
  induction s as [ | c s IH]; intros acc r H; simpl in H.
  - exists [], []. rewrite !app_nil_r. auto.
  - destruct (p c) eqn:Hc.
    + destruct (greedy p k (acc ++ [c]) s) as [r' | ] eqn:Hg.
      * injection H as <-.
        destruct (IH _ _ Hg) as (w & rest & -> & Hw & Hk).
        exists (c :: w), rest. simpl. rewrite Hc, Hw.
        rewrite <- app_assoc in Hk. auto.
      * exists [], (c :: s). rewrite !app_nil_r. auto.
    + exists [], (c :: s). rewrite !app_nil_r. auto.
Qed.

End Matcher.

Section MatchHere.

Import Re.

Lemma match_lit (c : N) (re : regex) (s : list N) :
  match_here (Lit c :: re) (c :: s) = match_here re s.
Proof. simpl. now rewrite N.eqb_refl. Qed.

Lemma match_star (k : cclass) (re : regex) (w rest : list N) (m : list (list N)) :
  forallb (in_class k) w = true -> stops (in_class k) rest ->
  match_here re rest = Some m ->
  match_here (Star k :: re) (w ++ rest) = Some m.
Proof.
  intros Hw Hstop Hm. simpl. now apply greedy_run.
Qed.

Lemma match_group (k : cclass) (re : regex) (w rest : list N) (m : list (list N)) :
  w <> [] -> forallb (in_class k) w = true -> stops (in_class k) rest ->
  match_here re rest = Some m ->
  match_here (Group k :: re) (w ++ rest) = Some (w :: m).
Proof.
  intros Hne Hw Hstop Hm. destruct w as [ | x w]; [congruence | ].
  simpl in Hw. apply andb_true_iff in Hw. destruct Hw as [Hx Hw].
  simpl. rewrite Hx. apply greedy_run; [assumption | assumption | ].
  simpl. now rewrite Hm.
Qed.

Lemma match_lit_inv (c : N) (re : regex) (s : list N) (m : list (list N)) :
  match_here (Lit c :: re) s = Some m ->
  exists s', s = c :: s' /\ match_here re s' = Some m.
Proof.
  simpl. destruct s as [ | x s]; [discriminate | ].
  destruct (N.eqb_spec x c) as [-> | ]; [eauto | discriminate].
Qed.

Lemma match_star_inv (k : cclass) (re : regex) (s : list N) (m : list (list N)) :
  match_here (Star k :: re) s = Some m ->
  exists w rest,
    s = w ++ rest /\ forallb (in_class k) w = true /\ match_here re rest = Some m.
Proof.
  simpl. intros H. apply greedy_inv in H.
  destruct H as (w & rest & Hs & Hw & Hm). eauto.
Qed.

Lemma match_group_inv (k : cclass) (re : regex) (s : list N) (m : list (list N)) :
  match_here (Group k :: re) s = Some m ->
  exists w rest m',
    s = w ++ rest /\ w <> [] /\ forallb (in_class k) w = true /\
    match_here re rest = Some m' /\ m = w :: m'.
Proof.
  simpl. destruct s as [ | x s]; [discriminate | ].
  destruct (in_class k x) eqn:Hx; [ | discriminate].
  intros H. apply greedy_inv in H.
  destruct H as (w & rest & -> & Hw & Hm).
  destruct (match_here re rest) as [m' | ] eqn:Hre; [ | discriminate].
  injection Hm as <-.
  exists (x :: w), rest, m'. simpl. rewrite Hx, Hw.
  repeat split; congruence.
Qed.

(** [search] finds a match as soon as some suffix has one, and only
    then. *)
Lemma search_some (re : regex) (pre s : list N) :
  match_here re s <> None -> search re (pre ++ s) <> None.
Proof.
  intros Hm. induction pre as [ | x pre IH]; simpl.
  - destruct s; simpl; destruct (match_here re _); congruence.
  - destruct (match_here re (x :: pre ++ s)); [congruence | assumption].
Qed.

Lemma search_inv (re : regex) (s : list N) (m : list (list N)) :
  search re s = Some m ->
  exists pre rest, s = pre ++ rest /\ match_here re rest = Some m.
Proof.
  induction s as [ | x s IH]; simpl.
  - destruct (match_here re []) eqn:Hm; [ | discriminate].
    intros [= <-]. exists [], []. auto.
  - destruct (match_here re (x :: s)) eqn:Hm.
    + intros [= <-]. exists [], (x :: s). auto.
    + intros H. destruct (IH H) as (pre & rest & -> & Hr).
      exists (x :: pre), rest. auto.
Qed.

(** A position where no match starts is skipped. *)
Lemma search_skip (re : regex) (x : N) (s : list N) :
  match_here re (x :: s) = None -> search re (x :: s) = search re s.
Proof. intros H. simpl. now rewrite H. Qed.

End MatchHere.

(** ** The pattern *)

Lemma stops_space_number (d x : list N) :
  number d -> stops Unicode.isspace (d ++ x).
Proof.
  intros [Hne Hd]. destruct d as [ | c d]; [congruence | ].
  simpl in *. apply andb_true_iff in Hd. destruct Hd as [Hc _].
  now apply decimal_not_space.
Qed.

Lemma stops_decimal_blank (w : list N) (c : N) (x : list N) :
  blank w -> Unicode.isdecimal c = false ->
  stops Unicode.isdecimal (w ++ c :: x).
Proof.
  intros Hw Hc. destruct w as [ | b w]; simpl; [assumption | ].
  unfold blank in Hw. simpl in Hw. apply andb_true_iff in Hw.
  destruct Hw as [Hb _]. now apply space_not_decimal.
Qed.

Lemma match_here_pattern (w1 d1 w2 w3 d2 w4 w5 d3 post : list N) :
  blank w1 -> number d1 -> blank w2 ->
  blank w3 -> number d2 -> blank w4 ->
  blank w5 -> number d3 -> stops Unicode.isdecimal post ->
  Re.match_here pattern (spaced w1 d1 w2 w3 d2 w4 w5 d3 post) = Some [d1; d2; d3].
Proof.
  intros B1 N1 B2 B3 N2 B4 B5 N3 Hpost.
  unfold pattern, spaced. rewrite match_lit.
  apply match_star; [exact B1 | now apply stops_space_number | ].
  apply match_group;
    [exact (proj1 N1) | exact (proj2 N1) | now apply stops_decimal_blank | ].
  apply match_star; [exact B2 | reflexivity | ].
  rewrite match_lit.
  apply match_star; [exact B3 | now apply stops_space_number | ].
  apply match_group;
    [exact (proj1 N2) | exact (proj2 N2) | now apply stops_decimal_blank | ].
  apply match_star; [exact B4 | reflexivity | ].
  rewrite match_lit.
  apply match_star; [exact B5 | now apply stops_space_number | ].
  apply match_group; [exact (proj1 N3) | exact (proj2 N3) | exact Hpost | ].
  reflexivity.
Qed.

(** Every match of the pattern has this form and three groups of digits. *)
Lemma match_here_pattern_inv (s : list N) (m : list (list N)) :
  Re.match_here pattern s = Some m ->
  exists w1 d1 w2 w3 d2 w4 w5 d3 post,
    s = spaced w1 d1 w2 w3 d2 w4 w5 d3 post /\ m = [d1; d2; d3] /\
    number d1 /\ number d2 /\ number d3.
Proof.
  unfold pattern. intros H.
  apply match_lit_inv in H. destruct H as (s0 & -> & H).
  apply match_star_inv in H. destruct H as (w1 & s1 & -> & _ & H).
  apply match_group_inv in H.
  destruct H as (d1 & s2 & m1 & -> & Hne1 & Hd1 & H & ->).
  apply match_star_inv in H. destruct H as (w2 & s3 & -> & _ & H).
  apply match_lit_inv in H. destruct H as (s4 & -> & H).
  apply match_star_inv in H. destruct H as (w3 & s5 & -> & _ & H).
  apply match_group_inv in H.
  destruct H as (d2 & s6 & m2 & -> & Hne2 & Hd2 & H & ->).
  apply match_star_inv in H. destruct H as (w4 & s7 & -> & _ & H).
  apply match_lit_inv in H. destruct H as (s8 & -> & H).
  apply match_star_inv in H. destruct H as (w5 & s9 & -> & _ & H).
  apply match_group_inv in H.
  destruct H as (d3 & post & m3 & -> & Hne3 & Hd3 & H & ->).
  simpl in H. injection H as <-.
  exists w1, d1, w2, w3, d2, w4, w5, d3, post.
  unfold number. repeat split; assumption.
Qed.

Lemma search_pattern_inv (s : list N) (m : list (list N)) :
  Re.search pattern s = Some m ->
  exists d1 d2 d3, m = [d1; d2; d3] /\ number d1 /\ number d2 /\ number d3.
Proof.
  intros H. apply search_inv in H. destruct H as (pre & rest & _ & H).
  apply match_here_pattern_inv in H.
  destruct H as (w1 & d1 & w2 & w3 & d2 & w4 & w5 & d3 & post & _ & Hm & Hn).
  exists d1, d2, d3. auto.
Qed.

(** ** [int] on the groups *)

Lemma int_digits_app (l1 l2 : list N) :
  forall acc,
    int_digits acc (l1 ++ l2) =
    match int_digits acc l1 with
    | Some v => int_digits v l2
    | None => None
    end.
Proof.
  induction l1 as [ | c l1 IH]; intros acc; simpl; [reflexivity | ].
  destruct (Unicode.decimal c); [apply IH | reflexivity].
Qed.

Lemma int_digits_total (g : list N) :
  forallb Unicode.isdecimal g = true ->
  forall acc, exists n, int_digits acc g = Some n.
Proof.
  induction g as [ | c g IH]; intros Hg acc; simpl; [eauto | ].
  simpl in Hg. apply andb_true_iff in Hg. destruct Hg as [Hc Hg].
  unfold Unicode.isdecimal in Hc.
  destruct (Unicode.decimal c); [apply (IH Hg) | discriminate].
Qed.

(** [int] never raises on a group of the pattern. *)
Lemma int_number (g : list N) :
  number g -> exists n, int_digits 0 g = Some n /\ int g = Return (Z.of_N n).
Proof.
  intros [Hne Hg]. destruct (int_digits_total g Hg 0) as [n Hn].
  exists n. split; [assumption | ].
  unfold int. destruct g; [congruence | ]. now rewrite Hn.
Qed.

(** ** [extract_values] *)

Lemma search_here (re : Re.regex) (s : list N) (m : list (list N)) :
  Re.match_here re s = Some m -> Re.search re s = Some m.
Proof. intros H. destruct s; simpl; now rewrite H. Qed.

Lemma extract_values_groups (now : datetime) (bs : list byte) (s d1 d2 d3 : list N) (a b c : N) :
  Utf8.decode bs = Some s ->
  Re.search pattern s = Some [d1; d2; d3] ->
  int_digits 0 d1 = Some a -> int_digits 0 d2 = Some b -> int_digits 0 d3 = Some c ->
  d1 <> [] -> d2 <> [] -> d3 <> [] ->
  extract_values now bs = Return (parsed now a b c).
Proof.
  intros Hdec Hs H1 H2 H3 E1 E2 E3.
  unfold extract_values, bytes_decode. rewrite Hdec. simpl. rewrite Hs. simpl.
  unfold int. destruct d1; [congruence | ]. rewrite H1. simpl.
  destruct d2; [congruence | ]. rewrite H2. simpl.
  destruct d3; [congruence | ]. rewrite H3. reflexivity.
Qed.

(** The three outcomes of [extract_values]. *)
Lemma extract_values_cases (now : datetime) (bs : list byte) :
  (Utf8.decode bs = None /\ extract_values now bs = Raise UnicodeDecodeError) \/
  (exists s, Utf8.decode bs = Some s /\ Re.search pattern s = None /\
             extract_values now bs = Return nones) \/
  (exists s d1 d2 d3 a b c,
      Utf8.decode bs = Some s /\ Re.search pattern s = Some [d1; d2; d3] /\
      int_digits 0 d1 = Some a /\ int_digits 0 d2 = Some b /\ int_digits 0 d3 = Some c /\
      extract_values now bs = Return (parsed now a b c)).
Proof.
  destruct (Utf8.decode bs) as [s | ] eqn:Hdec.
  - right. destruct (Re.search pattern s) as [m | ] eqn:Hs.
    + right. destruct (search_pattern_inv _ Hs) as (d1 & d2 & d3 & -> & N1 & N2 & N3).
      destruct (int_number N1) as (a & Ha & _).
      destruct (int_number N2) as (b & Hb & _).
      destruct (int_number N3) as (c & Hc & _).
      exists s, d1, d2, d3, a, b, c. repeat split; try assumption.
      apply (extract_values_groups now bs Hdec Hs Ha Hb Hc);
        [exact (proj1 N1) | exact (proj1 N2) | exact (proj1 N3)].
    + left. exists s. repeat split; try assumption.
      unfold extract_values, bytes_decode. rewrite Hdec. simpl. now rewrite Hs.
  - left. split; [reflexivity | ].
    unfold extract_values, bytes_decode. now rewrite Hdec.
Qed.

(** ** Frames *)

Lemma digits_lt (fuel : nat) :
  forall n, Forall (fun d => (d < 10)%N) (digits fuel n).
Proof.
  induction fuel as [ | fuel IH]; intros n; simpl; [constructor | ].
  destruct (N.ltb_spec n 10).
  - constructor; [assumption | constructor].
  - apply Forall_app. split; [apply IH | ].
    constructor; [ | constructor]. apply N.mod_lt. discriminate.
Qed.

Lemma digits_nonempty (fuel : nat) (n : N) : digits (S fuel) n <> [].
Proof.
  simpl. destruct (n <? 10)%N; [discriminate | ].
  intros H. apply app_eq_nil in H. destruct H as [_ H]. discriminate.
Qed.

Lemma digit_byte_code (d : N) : (d < 10)%N -> Byte.to_N (digit_byte d) = (48 + d)%N.
Proof.
  intros Hd.
  assert (H : In d [0; 1; 2; 3; 4; 5; 6; 7; 8; 9]%N) by (simpl; lia).
  simpl in H.
  repeat (destruct H as [<- | H]; [reflexivity | ]). destruct H.
Qed.

Lemma codes_digits (n : N) :
  codes n = map (fun d => (48 + d)%N) (digits (S (N.to_nat (N.log2 n))) n).
Proof.
  unfold codes, numeral. rewrite map_map. apply map_ext_in.
  intros d Hd. apply digit_byte_code.
  pose proof (digits_lt (S (N.to_nat (N.log2 n))) n) as Hall.
  rewrite Forall_forall in Hall. now apply Hall.
Qed.

Lemma codes_number (n : N) : number (codes n).
Proof.
  rewrite codes_digits. split.
  - intros H. apply map_eq_nil in H. now apply digits_nonempty in H.
  - apply forallb_forall. intros x Hx. apply in_map_iff in Hx.
    destruct Hx as (d & <- & Hd). apply isdecimal_ascii.
    pose proof (digits_lt (S (N.to_nat (N.log2 n))) n) as Hall.
    rewrite Forall_forall in Hall. now apply Hall.
Qed.

Lemma int_digits_of_digits (fuel : nat) :
  forall n, (n < 2 ^ N.of_nat fuel)%N ->
    int_digits 0 (map (fun d => (48 + d)%N) (digits fuel n)) = Some n.
Proof.
  induction fuel as [ | fuel IH]; intros n Hn.
  - simpl in *. f_equal. lia.
  - cbn [digits]. destruct (N.ltb_spec n 10) as [Hlt | Hge].
    + cbn [map int_digits]. rewrite decimal_ascii by assumption.
      reflexivity.
    + rewrite map_app, int_digits_app. rewrite IH.
      * cbn [map int_digits].
        rewrite decimal_ascii by (apply N.mod_lt; discriminate).
        f_equal. pose proof (N.div_mod n 10). lia.
      * rewrite Nat2N.inj_succ, N.pow_succ_r' in Hn.
        apply N.Div0.div_lt_upper_bound; lia.
Qed.

Lemma int_digits_codes (n : N) : int_digits 0 (codes n) = Some n.
Proof.
  rewrite codes_digits. apply int_digits_of_digits.
  rewrite Nat2N.inj_succ, N2Nat.id.
  destruct n as [ | p]; [reflexivity | ].
  apply N.log2_spec. reflexivity.
Qed.

Lemma numeral_ascii (n : N) : forallb is_ascii (numeral n) = true.
Proof.
  unfold numeral. apply forallb_forall. intros x Hx.
  apply in_map_iff in Hx. destruct Hx as (d & <- & Hd).
  unfold is_ascii. rewrite digit_byte_code.
  - pose proof (digits_lt (S (N.to_nat (N.log2 n))) n) as Hall.
    rewrite Forall_forall in Hall. apply Hall in Hd. apply N.ltb_lt. lia.
  - pose proof (digits_lt (S (N.to_nat (N.log2 n))) n) as Hall.
    rewrite Forall_forall in Hall. now apply Hall.
Qed.

Lemma decode_frame (a b c : N) :
  Utf8.decode (frame a b c) =
  Some (spaced [] (codes a) [ord " "] [] (codes b) [ord " "] [] (codes c) []).
Proof.
  rewrite decode_ascii.
  - unfold frame, spaced, codes. rewrite !map_app. simpl.
    now rewrite app_nil_r.
  - unfold frame. rewrite !forallb_app, !numeral_ascii. reflexivity.
Qed.

Lemma extract_values_frame (now : datetime) (a b c : N) :
  extract_values now (frame a b c) = Return (parsed now a b c).
Proof.
  eapply extract_values_groups.
  - apply decode_frame.
  - apply search_here. apply match_here_pattern;
      try apply codes_number; try reflexivity; exact I.
  - apply int_digits_codes.
  - apply int_digits_codes.
  - apply int_digits_codes.
  - apply codes_number.
  - apply codes_number.
  - apply codes_number.
Qed.

(** ** The valve decision *)

Lemma in_band_int (z : Z) :
  in_band (Some z) = Return ((420 <? z)%Z && (z <? 510)%Z).
Proof. unfold in_band, py_lt. simpl. now destruct (420 <? z)%Z. Qed.

Lemma valve_level_int (z : Z) :
  valve_level (Some z) = Return (negb ((420 <? z)%Z && (z <? 510)%Z)).
Proof.
  unfold valve_level. rewrite in_band_int. simpl.
  now destruct ((420 <? z)%Z && (z <? 510)%Z).
Qed.

Lemma valve_level_None : valve_level None = Raise TypeError.
Proof. reflexivity. Qed.

(** ** One iteration *)

Lemma plot_trends_nonempty (d : list reading) :
  d <> [] -> exists s, plot_trends d = Return s.
Proof.
  intros Hd. destruct d as [ | r d]; [congruence | ].
  unfold plot_trends, zip_star. eauto.
Qed.

Lemma loop_body_parsed (st : state) (now : datetime) (line : list byte) (a b c : N) :
  extract_values now line = Return (parsed now a b c) ->
  loop_body st now line =
  Return (recorded st (negb ((420 <? Z.of_N c)%Z && (Z.of_N c <? 510)%Z))
            (reading_of now a b c)).
Proof.
  intros H. unfold loop_body. rewrite H.
  unfold parsed. cbn [Py.bind]. rewrite valve_level_int.
  unfold recorded, reading_of.
  cbn [Py.bind all_present parsed data data_append writerow gpio_output
       plotted csv gpio plots].
  destruct (plot_interval <=? length _) eqn:Hlen; [ | reflexivity].
  destruct (plot_trends_nonempty (d := Deque.append maxlen (data st)
    (now, truediv (Z.of_N a) 10, truediv (Z.of_N b - 1000) 10, Z.of_N c)))
    as [s Hs].
  - intros E. rewrite E in Hlen. discriminate.
  - rewrite Hs. reflexivity.
Qed.

Lemma loop_body_nones (st : state) (now : datetime) (line : list byte) :
  extract_values now line = Return nones ->
  loop_body st now line = Raise TypeError.
Proof. intros H. unfold loop_body. now rewrite H. Qed.

Lemma loop_body_undecodable (st : state) (now : datetime) (line : list byte) :
  Utf8.decode line = None ->
  loop_body st now line = Raise UnicodeDecodeError.
Proof.
  intros H. unfold loop_body, extract_values, bytes_decode. now rewrite H.
Qed.

(** ** The deque *)

Section DequeFacts.

Variable A : Type.

Lemma append_length (k : nat) (d : list A) (x : A) :
  length d <= k -> length (Deque.append k d x) = Nat.min (S (length d)) k.
Proof.
  intros Hd. unfold Deque.append.
  destruct (Nat.ltb_spec k (length (d ++ [x]))) as [Hfull | Hroom];
    rewrite length_app in *; cbn [length] in *.
  - destruct d as [ | y d]; cbn [app tl length] in *; [lia | ].
    rewrite length_app. cbn [length]. lia.
  - lia.
Qed.

Lemma tl_skipn (m : nat) (l : list A) : tl (skipn m l) = skipn (S m) l.
Proof.
  revert l. induction m as [ | m IH]; intros [ | y l]; simpl; try reflexivity.
  apply IH.
Qed.

(** The deque after [xs] has been appended to an empty deque. *)
Lemma appends_skipn (k : nat) (xs : list A) :
  Deque.appends k [] xs = skipn (length xs - k) xs.
Proof.
  unfold Deque.appends.
  induction xs as [ | x xs IH] using rev_ind; [reflexivity | ].
  rewrite fold_left_app. simpl. rewrite IH. unfold Deque.append.
  rewrite !length_app, length_skipn. simpl.
  destruct (Nat.ltb_spec k (length xs - (length xs - k) + 1)) as [Hfull | Hroom].
  - assert (Hk : k <= length xs) by lia.
    replace (length xs + 1 - k) with (S (length xs - k)) by lia.
    rewrite <- tl_skipn. rewrite skipn_app.
    replace (length xs - k - length xs) with 0 by lia. reflexivity.
  - replace (length xs - k) with 0 by lia.
    replace (length xs + 1 - k) with 0 by lia. reflexivity.
Qed.

End DequeFacts.

(** ** Lines whose groups are in the order of the pattern *)

Lemma span_decimal (s : list N) :
  exists p1 p2,
    s = p1 ++ p2 /\ forallb Unicode.isdecimal p1 = true /\
    stops Unicode.isdecimal p2.
Proof.
  induction s as [ | c s (p1 & p2 & -> & H1 & H2)].
  - exists [], []. simpl. auto.
  - destruct (Unicode.isdecimal c) eqn:Hc.
    + exists (c :: p1), p2. simpl. rewrite Hc, H1. auto.
    + exists [], (c :: p1 ++ p2). simpl. auto.
Qed.

Lemma number_app (d p : list N) :
  number d -> forallb Unicode.isdecimal p = true -> number (d ++ p).
Proof.
  intros [Hne Hd] Hp. split.
  - intros H. apply app_eq_nil in H. tauto.
  - rewrite forallb_app, Hd, Hp. reflexivity.
Qed.

Lemma spaced_post (w1 d1 w2 w3 d2 w4 w5 d3 p1 p2 : list N) :
  spaced w1 d1 w2 w3 d2 w4 w5 d3 (p1 ++ p2) =
  spaced w1 d1 w2 w3 d2 w4 w5 (d3 ++ p1) p2.
Proof. unfold spaced. now rewrite <- (app_assoc d3 p1 p2). Qed.

Section Spaced.

Variables w1 d1 w2 w3 d2 w4 w5 d3 : list N.
Hypothesis B1 : blank w1.
Hypothesis N1 : number d1.
Hypothesis B2 : blank w2.
Hypothesis B3 : blank w3.
Hypothesis N2 : number d2.
Hypothesis B4 : blank w4.
Hypothesis B5 : blank w5.
Hypothesis N3 : number d3.

(** At the marker the pattern matches; the last group extends over the
    digits that follow it. *)
Lemma match_here_spaced (post : list N) :
  exists g3,
    Re.match_here pattern (spaced w1 d1 w2 w3 d2 w4 w5 d3 post) = Some [d1; d2; g3].
Proof.
  destruct (span_decimal post) as (p1 & p2 & -> & Hp1 & Hp2).
  exists (d3 ++ p1). rewrite spaced_post.
  apply match_here_pattern; try assumption. now apply number_app.
Qed.

Lemma search_spaced_some (pre post : list N) :
  exists g1 g2 g3,
    Re.search pattern (pre ++ spaced w1 d1 w2 w3 d2 w4 w5 d3 post) = Some [g1; g2; g3] /\
    number g1 /\ number g2 /\ number g3.
Proof.
  destruct (match_here_spaced post) as [g3 Hm].
  destruct (Re.search pattern (pre ++ spaced w1 d1 w2 w3 d2 w4 w5 d3 post))
    as [m | ] eqn:Hs.
  - destruct (search_pattern_inv _ Hs) as (g1 & g2 & g3' & -> & Hn).
    exists g1, g2, g3'. auto.
  - exfalso. revert Hs. apply search_some. congruence.
Qed.

Lemma search_spaced_exact (pre post : list N) :
  ~ In (ord "H") pre -> stops Unicode.isdecimal post ->
  Re.search pattern (pre ++ spaced w1 d1 w2 w3 d2 w4 w5 d3 post) = Some [d1; d2; d3].
Proof.
  intros Hpre Hpost. induction pre as [ | x pre IH].
  - apply search_here. now apply match_here_pattern.
  - cbn [app]. rewrite search_skip.
    + apply IH. intros H. apply Hpre. now right.
    + unfold pattern. cbn [Re.match_here].
      destruct (N.eqb_spec x (ord "H")) as [-> | ]; [ | reflexivity].
      exfalso. apply Hpre. now left.
Qed.

End Spaced.

(** ** The loop on lines that parse *)

Lemma recorded_last_plot (st : state) (level : bool) (r : reading) :
  plot_interval <= length (data (recorded st level r)) ->
  last (plots (recorded st level r)) [] = data (recorded st level r).
Proof.
  unfold recorded. cbn [data plots]. intros H.
  apply Nat.leb_le in H. rewrite H. apply last_last.
Qed.

Lemma run_parsed (lines : list (datetime * list byte)) :
  forall st,
    Forall parses lines -> length (data st) <= maxlen ->
    exists st',
      run st lines = Return st' /\
      length (data st') = Nat.min (length (data st) + length lines) maxlen /\
      length (csv st') = length (csv st) + length lines /\
      length (gpio st') = length (gpio st) + length lines /\
      length (plots st') =
        length (plots st)
        + ((length (data st) + length lines - (plot_interval - 1))
           - (length (data st) - (plot_interval - 1))) /\
      (lines <> [] -> plot_interval <= length (data st') ->
       last (plots st') [] = data st').
Proof.
  induction lines as [ | [now line] lines IH]; intros st Hall Hlen.
  - exists st. cbn [run length]. unfold maxlen, plot_interval in *.
    split; [reflexivity | split; [lia | split; [lia | split; [lia | split; [lia | ]]]]].
    congruence.
  - inversion Hall as [ | l ls (a & b & c & Hp) Hrest]; subst.
    cbn [fst snd] in Hp. cbn [run]. rewrite (@loop_body_parsed st now line a b c Hp).
    cbn [Py.bind].
    set (level := negb _). set (r := reading_of now a b c).
    assert (Hd1 : length (data (recorded st level r)) =
                  Nat.min (S (length (data st))) maxlen).
    { apply (append_length _ _ Hlen). }
    assert (Hp1 : length (plots (recorded st level r)) =
                  length (plots st)
                  + (if plot_interval <=? length (data (recorded st level r))
                     then 1 else 0)).
    { unfold recorded. cbn [plots data].
      destruct (plot_interval <=? _); [rewrite length_app; simpl | ]; lia. }
    assert (Hc1 : length (csv (recorded st level r)) = length (csv st) + 1).
    { unfold recorded. cbn [csv]. rewrite length_app. reflexivity. }
    assert (Hg1 : length (gpio (recorded st level r)) = length (gpio st) + 1).
    { unfold recorded. cbn [gpio]. rewrite length_app. reflexivity. }
    destruct (IH (recorded st level r) Hrest) as (st' & Hrun & Hd & Hc & Hg & Hpl & Hlast).
    { rewrite Hd1. apply Nat.le_min_r. }
    exists st'. split; [exact Hrun | ].
    assert (Hend : plot_interval <= length (data st') ->
                   last (plots st') [] = data st').
    { destruct lines as [ | l lines].
      - cbn [run] in Hrun. injection Hrun as <-. apply recorded_last_plot.
      - apply Hlast. discriminate. }
    repeat match goal with |- _ /\ _ => split end;
      try (intros _; exact Hend);
      cbn [length]; rewrite ?Hd, ?Hc, ?Hg, ?Hpl, ?Hp1, ?Hd1, ?Hc1, ?Hg1;
      unfold maxlen, plot_interval in *;
      destruct (Nat.leb_spec 10 (Nat.min (S (length (data st))) 60)); lia.
Qed.

(** * The claims *)

(** C1.  A line on which parsing fails ([extract_values] returns four
    [None]) does not bring the loop back to reading: the comparison
    [420 < z_value < 510] is evaluated before the [None] guard and raises
    [TypeError], which ends the loop; the lines that follow are never
    read. *)
Theorem loop_body_parse_failure
    (st : state) (now : datetime) (line : list byte)
    (rest : list (datetime * list byte)) :
  extract_values now line = Return nones ->
  loop_body st now line = Raise TypeError /\
  run st ((now, line) :: rest) = Raise TypeError.
Proof.
  intros H. pose proof (@loop_body_nones st now line H) as Hb.
  split; [exact Hb | ]. cbn [run]. now rewrite Hb.
Qed.

Lemma loop_body_parse_failure_garbage :
  loop_body initial 0%N (bytes "garbage") = Raise TypeError /\
  run initial [(0%N, bytes "garbage"); (1%N, frame 450 1234 465)] = Raise TypeError.
Proof.
  apply (@loop_body_parse_failure initial 0%N (bytes "garbage")
           [(1%N, frame 450 1234 465)]).
  vm_compute. reflexivity.
Defined.

(** C2.  On an integer [co2_ppm] the valve is switched off exactly when
    [420 < co2_ppm < 510] and on otherwise; 420 and 510 switch it on, and
    the CO2 values 419, 420, 465, 509, 510, 600 give on, on, off, off, on,
    on, also when they arrive as frames through the loop. *)
Theorem valve_level_band :
  (forall z : Z,
      (valve_level (Some z) = Return OFF <-> (420 < z < 510)%Z) /\
      (valve_level (Some z) = Return ON <-> ~ (420 < z < 510)%Z)) /\
  valve_level (Some 420%Z) = Return ON /\
  valve_level (Some 510%Z) = Return ON /\
  map (fun z => valve_level (Some z)) [419; 420; 465; 509; 510; 600]%Z =
    map Return [ON; ON; OFF; OFF; ON; ON] /\
  exists st,
    run initial (frames_of_co2 [419; 420; 465; 509; 510; 600]%N) = Return st /\
    gpio st = [ON; ON; OFF; OFF; ON; ON].
Proof.
  split; [ | split; [reflexivity | split; [reflexivity | split; [reflexivity | ]]]].
  - intros z. rewrite valve_level_int. unfold OFF, ON.
    destruct (Z.ltb_spec 420 z) as [Hlo | Hlo];
      destruct (Z.ltb_spec z 510) as [Hhi | Hhi]; simpl;
      split; split; intros Hz; try discriminate; try reflexivity; lia.
  - eexists. split; [vm_compute; reflexivity | reflexivity].
Qed.

(** C3 (counterexample).  A byte sequence that is not valid UTF-8 makes
    [extract_values] raise: no value is returned. *)
Lemma extract_values_invalid_utf8 :
  Utf8.decode [Byte.xff] = None /\
  extract_values 0%N [Byte.xff] = Raise UnicodeDecodeError /\
  Py.returned (extract_values 0%N [Byte.xff]) = false.
Proof. vm_compute. auto. Qed.

(** C3 (as the code has it).  On bytes that are not valid UTF-8 [extract_values]
    raises [UnicodeDecodeError], which nothing in the script catches; on
    decoded text that the pattern does not match it raises nothing and
    returns four [None]. *)
Theorem extract_values_failures (now : datetime) (bs : list byte) :
  (Utf8.decode bs = None -> extract_values now bs = Raise UnicodeDecodeError) /\
  (forall s, Utf8.decode bs = Some s -> Re.search pattern s = None ->
             extract_values now bs = Return nones).
Proof.
  unfold extract_values, bytes_decode. split.
  - intros ->. reflexivity.
  - intros s -> Hs. cbn [Py.bind]. rewrite Hs. reflexivity.
Qed.

Lemma extract_values_failures_sample :
  extract_values 0%N [Byte.xc3; Byte.x28] = Raise UnicodeDecodeError /\
  extract_values 0%N (bytes "garbage") = Return nones.
Proof.
  split.
  - apply (proj1 (extract_values_failures 0%N [Byte.xc3; Byte.x28])).
    vm_compute. reflexivity.
  - apply (proj2 (extract_values_failures 0%N (bytes "garbage")) (str "garbage"));
      vm_compute; reflexivity.
Defined.


(** C5.  After the elements of [xs] have been appended to an empty deque
    of capacity [k], the deque has [min (length xs) k] elements, the last
    ones appended, in the order of arrival; 65 appends into the deque of
    the script leave the last 60. *)
Theorem deque_keeps_last (A : Type) (k : nat) (xs : list A) :
  length (Deque.appends k [] xs) = Nat.min (length xs) k /\
  Deque.appends k [] xs = lastn (Nat.min (length xs) k) xs /\
  (length xs = 65 ->
   Deque.appends maxlen [] xs = skipn 5 xs /\
   length (Deque.appends maxlen [] xs) = 60).
Proof.
  rewrite !appends_skipn. unfold lastn. rewrite !length_skipn.
  split; [lia | split].
  - f_equal. lia.
  - intros H. rewrite H. unfold maxlen. split; reflexivity.
Qed.

(** C6.  From the tenth reading on, [plot_trends] is called at every
    reading that parses, not once in ten: after [n] such lines it has been
    called [n - 9] times.  Each call is given the whole deque: the last
    plot is the current deque. *)
Theorem plots_every_reading (lines : list (datetime * list byte)) :
  Forall parses lines ->
  exists st,
    run initial lines = Return st /\
    length (plots st) = length lines - (plot_interval - 1) /\
    length (csv st) = length lines /\
    (plot_interval <= length lines -> last (plots st) [] = data st).
Proof.
  intros Hall.
  destruct (@run_parsed lines initial Hall) as (st & Hrun & Hd & Hc & _ & Hp & Hlast).
  { simpl. unfold maxlen. lia. }
  exists st. split; [exact Hrun | ]. simpl in *.
  split; [lia | split; [lia | ]].
  intros Hn. apply Hlast.
  - intros ->. unfold plot_interval in Hn. simpl in Hn. lia.
  - rewrite Hd. unfold plot_interval, maxlen in *. lia.
Qed.

Lemma plots_every_reading_eleven :
  exists st,
    run initial (frames_of_co2 [465; 465; 465; 465; 465; 465; 465; 465; 465; 465; 465]%N)
      = Return st /\
    length (plots st) = 2 /\
    length (csv st) = 11 /\
    (plot_interval <= 11 -> last (plots st) [] = data st).
Proof.
  apply (@plots_every_reading
           (frames_of_co2 [465; 465; 465; 465; 465; 465; 465; 465; 465; 465; 465]%N)).
  repeat constructor; exists 450%N, 1234%N, 465%N; vm_compute; reflexivity.
Defined.

(** C7 (counterexample).  The three groups in order, separated by a comma
    and a blank: the pattern does not match and nothing is captured. *)
Lemma search_noise_between_groups :
  Re.search pattern (str "H450, T1234, Z465") = None /\
  extract_values 0%N (bytes "H450, T1234, Z465") = Return nones.
Proof. vm_compute. auto. Qed.

(** C7 (as the code has it).  When the marker H with digits, the marker T with
    digits and the marker Z with digits follow one another in that order
    with nothing but white space (possibly none) between a marker and its
    digits and between the groups, whatever comes before and after, the
    search succeeds and captures three groups of digits; when no H comes
    before and no digit comes after, the groups captured are those three. *)
Theorem search_spaced (pre w1 d1 w2 w3 d2 w4 w5 d3 post : list N) :
  blank w1 -> number d1 -> blank w2 ->
  blank w3 -> number d2 -> blank w4 ->
  blank w5 -> number d3 ->
  (exists g1 g2 g3,
      Re.search pattern (pre ++ spaced w1 d1 w2 w3 d2 w4 w5 d3 post) = Some [g1; g2; g3] /\
      number g1 /\ number g2 /\ number g3) /\
  (~ In (ord "H") pre -> stops Unicode.isdecimal post ->
   Re.search pattern (pre ++ spaced w1 d1 w2 w3 d2 w4 w5 d3 post) = Some [d1; d2; d3]).
Proof.
  intros B1 N1 B2 B3 N2 B4 B5 N3. split.
  - now apply search_spaced_some.
  - now apply search_spaced_exact.
Qed.

Lemma search_spaced_sample :
  (exists g1 g2 g3,
      Re.search pattern (str "co2: H 450 T1234  Z  465 ppm") = Some [g1; g2; g3] /\
      number g1 /\ number g2 /\ number g3) /\
  (~ In (ord "H") (str "co2: ") -> stops Unicode.isdecimal (str " ppm") ->
   Re.search pattern (str "co2: H 450 T1234  Z  465 ppm") =
     Some [str "450"; str "1234"; str "465"]).
Proof.
  apply (@search_spaced (str "co2: ") (str " ") (str "450") (str " ") []
           (str "1234") (str "  ") (str "  ") (str "465") (str " ppm"));
    try (vm_compute; reflexivity);
    (split; [discriminate | vm_compute; reflexivity]).
Defined.







(** * Further properties of the script *)

(** ** The loop, line by line *)

Lemma reading_at_parsed (l : datetime * list byte) (r : reading) :
  reading_at l = Some r ->
  exists a b c,
    extract_values (fst l) (snd l) = Return (parsed (fst l) a b c) /\
    r = reading_of (fst l) a b c.
Proof.
  unfold reading_at.
  destruct (extract_values_cases (fst l) (snd l))
    as [[_ He] | [(s & _ & _ & He) | (s & d1 & d2 & d3 & a & b & c & _ & _ & _ & _ & _ & He)]];
    rewrite He; try discriminate.
  intros [= <-]. exists a, b, c. auto.
Qed.

Lemma parses_reading_at (l : datetime * list byte) :
  parses l <-> exists r, reading_at l = Some r.
Proof.
  split.
  - intros (a & b & c & He). unfold reading_at. rewrite He.
    exists (reading_of (fst l) a b c). reflexivity.
  - intros [r Hr]. destruct (reading_at_parsed l Hr) as (a & b & c & He & _).
    exists a, b, c. exact He.
Qed.

Lemma loop_body_reading (st : state) (l : datetime * list byte) (r : reading) :
  reading_at l = Some r ->
  loop_body st (fst l) (snd l) = Return (recorded st (level_of r) r).
Proof.
  intros Hr. destruct (reading_at_parsed l Hr) as (a & b & c & He & ->).
  apply (@loop_body_parsed st (fst l) (snd l) a b c He).
Qed.

(** A line that does not parse ends the iteration with an exception. *)
Lemma loop_body_not_parsed (st : state) (l : datetime * list byte) :
  reading_at l = None ->
  loop_body st (fst l) (snd l) =
  Raise (match Utf8.decode (snd l) with
         | Some _ => TypeError
         | None => UnicodeDecodeError
         end).
Proof.
  unfold reading_at.
  destruct (extract_values_cases (fst l) (snd l))
    as [[Hd He] | [(s & Hd & _ & He) | (s & d1 & d2 & d3 & a & b & c & _ & _ & _ & _ & _ & He)]];
    rewrite He; try discriminate; intros _; rewrite Hd.
  - now apply loop_body_undecodable.
  - now apply loop_body_nones.
Qed.

Lemma run_app (l1 l2 : list (datetime * list byte)) :
  forall st, run st (l1 ++ l2) = Py.bind (run st l1) (fun st' => run st' l2).
Proof.
  induction l1 as [ | [now line] l1 IH]; intros st; cbn [app run Py.bind].
  - reflexivity.
  - destruct (loop_body st now line) as [st1 | e]; cbn [Py.bind]; [apply IH | reflexivity].
Qed.

Lemma run_parses_returns (lines : list (datetime * list byte)) :
  forall st, Forall parses lines -> exists st', run st lines = Return st'.
Proof.
  induction lines as [ | [now line] lines IH]; intros st Hall; cbn [run].
  - eauto.
  - inversion Hall as [ | l ls Hp Hrest]; subst.
    apply parses_reading_at in Hp. destruct Hp as [r Hr].
    pose proof (loop_body_reading st (now, line) Hr) as Hb. cbn [fst snd] in Hb.
    rewrite Hb. cbn [Py.bind]. now apply IH.
Qed.

Lemma readings_parses (lines : list (datetime * list byte)) :
  Forall parses lines -> map reading_at lines = map Some (readings lines).
Proof.
  induction 1 as [ | l lines Hp _ IH]; [reflexivity | ].
  apply parses_reading_at in Hp. destruct Hp as [r Hr].
  unfold readings in *. cbn [flat_map map]. rewrite Hr. cbn [app map].
  now rewrite IH.
Qed.

(** ** The trace of the loop *)

Lemma append_window (l : list reading) (x : reading) :
  Deque.append maxlen (window l) x = window (l ++ [x]).
Proof.
  unfold window, Deque.append.
  rewrite !length_app, length_skipn. cbn [length].
  destruct (Nat.ltb_spec maxlen (length l - (length l - maxlen) + 1)) as [Hfull | Hroom].
  - replace (length l + 1 - maxlen) with (S (length l - maxlen)) by lia.
    rewrite <- tl_skipn. rewrite skipn_app.
    replace (length l - maxlen - length l) with 0 by lia. reflexivity.
  - replace (length l - maxlen) with 0 by lia.
    replace (length l + 1 - maxlen) with 0 by lia. reflexivity.
Qed.

Lemma window_length (l : list reading) :
  length (window l) = Nat.min (length l) maxlen.
Proof. unfold window. rewrite length_skipn. lia. Qed.

Lemma plots_of_snoc (rs : list reading) (r : reading) :
  plots_of (rs ++ [r]) =
  if plot_interval <=? length (window (rs ++ [r]))
  then plots_of rs ++ [window (rs ++ [r])]
  else plots_of rs.
Proof.
  rewrite window_length. unfold plots_of.
  rewrite length_app. cbn [length]. unfold plot_interval, maxlen.
  destruct (Nat.leb_spec 10 (Nat.min (length rs + 1) 60)) as [Hge | Hlt].
  - replace (length rs + 1 - (10 - 1)) with (S (length rs - (10 - 1))) by lia.
    rewrite seq_S, map_app. cbn [map]. f_equal.
    + apply map_ext_in. intros i Hi. apply in_seq in Hi.
      rewrite firstn_app. replace (i - length rs) with 0 by lia.
      cbn [firstn]. now rewrite app_nil_r.
    + f_equal. f_equal. apply firstn_all2. rewrite length_app. cbn [length]. lia.
  - replace (length rs + 1 - (10 - 1)) with 0 by lia.
    replace (length rs - (10 - 1)) with 0 by lia. reflexivity.
Qed.

Lemma recorded_trace (rs : list reading) (r : reading) :
  recorded (trace rs) (level_of r) r = trace (rs ++ [r]).
Proof.
  unfold recorded, trace. cbn [data csv gpio plots].
  rewrite append_window, map_app, plots_of_snoc. reflexivity.
Qed.

Lemma run_trace (rs : list reading) :
  forall lines,
    map reading_at lines = map Some rs -> run initial lines = Return (trace rs).
Proof.
  induction rs as [ | r rs IH] using rev_ind; intros lines H.
  - apply map_eq_nil in H. subst. reflexivity.
  - rewrite map_app in H. apply map_eq_app in H.
    destruct H as (l1 & l2 & -> & H1 & H2).
    cbn [map] in H2. apply map_eq_cons in H2.
    destruct H2 as (l & tl & -> & Hr & Htl). apply map_eq_nil in Htl. subst tl.
    rewrite run_app, (IH l1 H1). cbn [Py.bind run]. destruct l as [now line].
    pose proof (loop_body_reading (trace rs) (now, line) Hr) as Hb.
    cbn [fst snd] in Hb. rewrite Hb. cbn [Py.bind].
    now rewrite recorded_trace.
Qed.

(** The frames of [frames_of_co2] parse. *)
Ltac frames_parse :=
  repeat constructor; unfold parses; eexists _, _, _; apply extract_values_frame.

(** X1.  The loop gets through a list of lines exactly when every one of
    them parses: a single line that does not parse, wherever it is, ends
    the loop with an exception. *)
Theorem run_returns_iff_parses (lines : list (datetime * list byte)) (st : state) :
  (exists st', run st lines = Return st') <-> Forall parses lines.
Proof.
  split; [ | apply run_parses_returns].
  revert st. induction lines as [ | [now line] lines IH]; intros st [st' Hrun].
  - constructor.
  - cbn [run] in Hrun.
    destruct (reading_at (now, line)) as [r | ] eqn:Hr.
    + pose proof (loop_body_reading st (now, line) Hr) as Hb.
      cbn [fst snd] in Hb. rewrite Hb in Hrun. cbn [Py.bind] in Hrun.
      constructor; [apply parses_reading_at; eauto | eapply IH; eauto].
    + pose proof (loop_body_not_parsed st (now, line) Hr) as Hb.
      cbn [fst snd] in Hb. rewrite Hb in Hrun. discriminate.
Qed.

(** X2.  One row is written to the CSV file for every line, in the order
    of the lines, and the row is the reading parsed from the line. *)
Theorem csv_rows_are_readings (lines : list (datetime * list byte)) :
  Forall parses lines ->
  exists st,
    run initial lines = Return st /\
    csv st = readings lines /\
    length (csv st) = length lines.
Proof.
  intros Hall. apply readings_parses in Hall.
  exists (trace (readings lines)). split; [now apply run_trace | ].
  cbn [trace csv]. split; [reflexivity | ].
  apply (f_equal (@length _)) in Hall. rewrite !length_map in Hall. auto.
Qed.

Lemma csv_rows_are_readings_sample :
  exists st,
    run initial (frames_of_co2 [419; 465; 600]%N) = Return st /\
    csv st = readings (frames_of_co2 [419; 465; 600]%N) /\
    length (csv st) = 3.
Proof.
  apply (@csv_rows_are_readings (frames_of_co2 [419; 465; 600]%N)).
  frames_parse.
Defined.

(** X3.  The valve is written once for every line, in order, and the
    level depends on the CO2 value of that line alone: off inside the band,
    on outside. *)
Theorem gpio_levels_are_decisions (lines : list (datetime * list byte)) :
  Forall parses lines ->
  exists st,
    run initial lines = Return st /\
    gpio st = map level_of (readings lines).
Proof.
  intros Hall. apply readings_parses in Hall.
  exists (trace (readings lines)). split; [now apply run_trace | reflexivity].
Qed.

Lemma gpio_levels_are_decisions_sample :
  exists st,
    run initial (frames_of_co2 [419; 465; 600]%N) = Return st /\
    gpio st = map level_of (readings (frames_of_co2 [419; 465; 600]%N)).
Proof.
  apply (@gpio_levels_are_decisions (frames_of_co2 [419; 465; 600]%N)).
  frames_parse.
Defined.

(** X4.  The deque is always the tail of what has been written to the CSV
    file: its last [maxlen] rows, or all of them while there are fewer. *)
Theorem deque_is_csv_tail (lines : list (datetime * list byte)) :
  Forall parses lines ->
  exists st,
    run initial lines = Return st /\
    data st = lastn (Nat.min (length lines) maxlen) (csv st) /\
    length (data st) = Nat.min (length lines) maxlen.
Proof.
  intros Hall. apply readings_parses in Hall.
  assert (Hlen : length (readings lines) = length lines).
  { apply (f_equal (@length _)) in Hall. rewrite !length_map in Hall. auto. }
  exists (trace (readings lines)). split; [now apply run_trace | ].
  cbn [trace data csv]. rewrite window_length, Hlen. split; [ | reflexivity].
  unfold window, lastn. rewrite Hlen. f_equal. lia.
Qed.

Lemma deque_is_csv_tail_sample :
  exists st,
    run initial (frames_of_co2 [419; 465; 600]%N) = Return st /\
    data st = lastn (Nat.min 3 maxlen) (csv st) /\
    length (data st) = Nat.min 3 maxlen.
Proof.
  apply (@deque_is_csv_tail (frames_of_co2 [419; 465; 600]%N)).
  frames_parse.
Defined.

(** X5.  The calls of [plot_trends] are known exactly: the first is made
    at the reading number [plot_interval], then there is one at every
    reading, and the call at reading number [i] is given the last [maxlen]
    of the first [i] readings. *)
Theorem plots_are_windows (lines : list (datetime * list byte)) :
  Forall parses lines ->
  exists st,
    run initial lines = Return st /\
    plots st =
      map (fun i => lastn (Nat.min i maxlen) (firstn i (readings lines)))
          (seq plot_interval (length lines - (plot_interval - 1))).
Proof.
  intros Hall. apply readings_parses in Hall.
  assert (Hlen : length (readings lines) = length lines).
  { apply (f_equal (@length _)) in Hall. rewrite !length_map in Hall. auto. }
  exists (trace (readings lines)). split; [now apply run_trace | ].
  cbn [trace plots]. unfold plots_of. rewrite Hlen.
  apply map_ext_in. intros i Hi. apply in_seq in Hi.
  unfold window, lastn. f_equal. rewrite length_firstn, Hlen.
  unfold plot_interval in Hi. lia.
Qed.

Lemma plots_are_windows_sample :
  exists st,
    run initial (frames_of_co2 [1; 2; 3; 4; 5; 6; 7; 8; 9; 10; 11; 12]%N) = Return st /\
    plots st =
      map (fun i => lastn (Nat.min i maxlen)
                      (firstn i (readings (frames_of_co2 [1; 2; 3; 4; 5; 6; 7; 8; 9; 10; 11; 12]%N))))
          (seq plot_interval (12 - (plot_interval - 1))).
Proof.
  apply (@plots_are_windows (frames_of_co2 [1; 2; 3; 4; 5; 6; 7; 8; 9; 10; 11; 12]%N)).
  frames_parse.
Defined.



(** ** Bytes that no UTF-8 text contains *)

Lemma never_width (b : byte) :
  never_in_utf8 b = true -> Utf8.width (Byte.to_N b) = 4.
Proof. destruct b; intros H; try discriminate H; reflexivity. Qed.

Lemma never_cont (b : byte) :
  never_in_utf8 b = true -> Utf8.cont (Byte.to_N b) = false.
Proof. destruct b; intros H; try discriminate H; reflexivity. Qed.

Lemma never_second (b : byte) (b0 : N) :
  never_in_utf8 b = true -> Utf8.second_ok b0 (Byte.to_N b) = false.
Proof.
  intros H. unfold Utf8.second_ok, Utf8.between, Utf8.second_hi.
  destruct (b0 =? 237)%N; [ | destruct (b0 =? 244)%N];
    destruct b; try discriminate H; apply andb_false_r.
Qed.

Lemma decode_never (b : byte) :
  never_in_utf8 b = true ->
  forall n bs, length bs <= n -> In b bs -> Utf8.decode bs = None.
Proof.
  intros Hb. induction n as [ | n IH]; intros bs Hlen Hin.
  - destruct bs; [destruct Hin | simpl in Hlen; lia].
  - destruct bs as [ | x0 r0]; [destruct Hin | ].
    cbn [length] in Hlen. cbn [Utf8.decode].
    destruct Hin as [-> | Hin]; [now rewrite never_width | ].
    destruct (Utf8.width (Byte.to_N x0)) as [ | [ | [ | [ | w]]]]; try reflexivity.
    + rewrite (IH r0) by (assumption || lia). reflexivity.
    + destruct r0 as [ | x1 r1]; [reflexivity | ]. cbn [length] in Hlen.
      destruct Hin as [-> | Hin]; [now rewrite never_cont | ].
      rewrite (IH r1) by (assumption || lia).
      now destruct (Utf8.cont _).
    + destruct r0 as [ | x1 [ | x2 r2]]; try reflexivity. cbn [length] in Hlen.
      destruct Hin as [-> | [-> | Hin]].
      * now rewrite never_second.
      * rewrite never_cont by assumption. now rewrite andb_false_r.
      * rewrite (IH r2) by (assumption || lia).
        now destruct (_ && _).
    + destruct r0 as [ | x1 [ | x2 [ | x3 r3]]]; try reflexivity.
      cbn [length] in Hlen.
      destruct Hin as [-> | [-> | [-> | Hin]]].
      * now rewrite never_second.
      * rewrite (never_cont _ Hb). now rewrite andb_false_r.
      * rewrite (never_cont _ Hb). now rewrite andb_false_r.
      * rewrite (IH r3) by (assumption || lia).
        now destruct (_ && _).
Qed.

(** X7.  One byte of line noise among [0xC0], [0xC1] and [0xF5] to
    [0xFF], anywhere in a line, also in a line that holds a complete frame,
    ends the loop with [UnicodeDecodeError]. *)
Theorem noise_byte_is_fatal
    (st : state) (now : datetime) (line : list byte) (b : byte) :
  In b line -> never_in_utf8 b = true ->
  loop_body st now line = Raise UnicodeDecodeError.
Proof.
  intros Hin Hb. apply loop_body_undecodable.
  apply (@decode_never b Hb (length line) line); [apply Nat.le_refl | exact Hin].
Qed.

Lemma noise_byte_is_fatal_sample :
  loop_body initial 0%N (frame 450 1234 465 ++ [Byte.xff; Byte.x0a]) =
  Raise UnicodeDecodeError.
Proof.
  apply (@noise_byte_is_fatal initial 0%N
           (frame 450 1234 465 ++ [Byte.xff; Byte.x0a]) Byte.xff).
  - apply in_or_app. right. left. reflexivity.
  - reflexivity.
Defined.



(** ** The values of a reading *)

(** X9.  A reading that [extract_values] returns carries the clock value of
    the call, a humidity and a CO2 value that are not negative and a
    temperature of at least -100; humidity and temperature are tenths. *)
Theorem reading_ranges
    (now : datetime) (bs : list byte) (d : datetime) (h t : Q) (z : Z) :
  extract_values now bs = Return (Some d, Some h, Some t, Some z) ->
  d = now /\ (0 <= h)%Q /\ (-100 # 1 <= t)%Q /\ (0 <= z)%Z /\
  exists a b : N,
    h = truediv (Z.of_N a) 10 /\ t = truediv (Z.of_N b - 1000) 10.
Proof.
  intros H.
  destruct (extract_values_cases now bs)
    as [[_ He] | [(s & _ & _ & He) | (s & d1 & d2 & d3 & a & b & c & _ & _ & _ & _ & _ & He)]];
    rewrite He in H; try discriminate.
  unfold parsed in H. injection H as <- <- <- <-.
  split; [reflexivity | ].
  unfold truediv, Qle. cbn [Qnum Qden].
  repeat split; try lia. exists a, b. split; reflexivity.
Qed.

Lemma reading_ranges_sample :
  0%N = 0%N /\ (0 <= 0 # 10)%Q /\ (-100 # 1 <= (-1000) # 10)%Q /\ (0 <= 0)%Z /\
  exists a b : N,
    (0 # 10)%Q = truediv (Z.of_N a) 10 /\ ((-1000) # 10)%Q = truediv (Z.of_N b - 1000) 10.
Proof.
  apply (@reading_ranges 0%N (bytes "H0 T0 Z0") 0%N (0 # 10)%Q ((-1000) # 10)%Q 0%Z).
  vm_compute. reflexivity.
Defined.

(** ** Lines without a marker *)

Lemma spaced_markers (w1 d1 w2 w3 d2 w4 w5 d3 post pre : list N) :
  let s := pre ++ spaced w1 d1 w2 w3 d2 w4 w5 d3 post in
  In (ord "H") s /\ In (ord "T") s /\ In (ord "Z") s.
Proof.
  cbv zeta. unfold spaced.
  repeat split; apply in_or_app; right.
  - left. reflexivity.
  - right. do 3 (apply in_or_app; right). left. reflexivity.
  - right. do 3 (apply in_or_app; right). right.
    do 3 (apply in_or_app; right). left. reflexivity.
Qed.

(** X10.  A line that lacks one of the letters H, T and Z is never a
    reading: [extract_values] returns four [None]. *)
Theorem missing_marker_no_reading (now : datetime) (bs : list byte) (s : list N) :
  Utf8.decode bs = Some s ->
  ~ In (ord "H") s \/ ~ In (ord "T") s \/ ~ In (ord "Z") s ->
  extract_values now bs = Return nones.
Proof.
  intros Hdec Hmiss.
  assert (Hs : Re.search pattern s = None).
  { destruct (Re.search pattern s) as [m | ] eqn:Hs; [exfalso | reflexivity].
    apply search_inv in Hs. destruct Hs as (pre & rest & -> & Hm).
    apply match_here_pattern_inv in Hm.
    destruct Hm as (w1 & d1 & w2 & w3 & d2 & w4 & w5 & d3 & post & -> & _).
    destruct (spaced_markers w1 d1 w2 w3 d2 w4 w5 d3 post pre) as (HH & HT & HZ).
    tauto. }
  unfold extract_values, bytes_decode. rewrite Hdec. cbn [Py.bind].
  now rewrite Hs.
Qed.

Lemma missing_marker_no_reading_sample :
  extract_values 0%N (bytes "H450 Z465 H450 1234 Z465") = Return nones.
Proof.
  apply (@missing_marker_no_reading 0%N (bytes "H450 Z465 H450 1234 Z465")
           (str "H450 Z465 H450 1234 Z465")).
  - vm_compute. reflexivity.
  - right. left. vm_compute. intuition discriminate.
Defined.

(** ** The frames of the sensor *)







(** ** The deque from any content *)

Lemma append_keeps_tail (A : Type) (k : nat) (l : list A) (x : A) :
  Deque.append k (skipn (length l - k) l) x =
  skipn (length (l ++ [x]) - k) (l ++ [x]).
Proof.
  unfold Deque.append.
  rewrite !length_app, length_skipn. cbn [length].
  destruct (Nat.ltb_spec k (length l - (length l - k) + 1)) as [Hfull | Hroom].
  - replace (length l + 1 - k) with (S (length l - k)) by lia.
    rewrite <- tl_skipn. rewrite skipn_app.
    replace (length l - k - length l) with 0 by lia. reflexivity.
  - replace (length l - k) with 0 by lia.
    replace (length l + 1 - k) with 0 by lia. reflexivity.
Qed.

Lemma appends_keeps_tail (A : Type) (k : nat) (d xs : list A) :
  length d <= k ->
  Deque.appends k d xs = skipn (length (d ++ xs) - k) (d ++ xs).
Proof.
  intros Hd. unfold Deque.appends.
  induction xs as [ | x xs IH] using rev_ind.
  - rewrite app_nil_r. cbn [fold_left].
    replace (length d - k) with 0 by lia. reflexivity.
  - rewrite fold_left_app. cbn [fold_left]. rewrite IH.
    rewrite append_keeps_tail. now rewrite <- app_assoc.
Qed.

(** X12.  Whatever a deque holds, as long as it is within its capacity:
    after more elements have been appended it holds the last [k] of the
    old content followed by the new elements, and it is still within its
    capacity. *)
Theorem deque_appends_from (A : Type) (k : nat) (d xs : list A) :
  length d <= k ->
  Deque.appends k d xs = lastn (Nat.min (length d + length xs) k) (d ++ xs) /\
  length (Deque.appends k d xs) <= k.
Proof.
  intros Hd. rewrite (@appends_keeps_tail A k d xs Hd). unfold lastn.
  rewrite length_skipn, !length_app. split; [f_equal; lia | lia].
Qed.

Lemma deque_appends_from_sample :
  Deque.appends 3 [1; 2] [3; 4; 5] = lastn (Nat.min (2 + 3) 3) ([1; 2] ++ [3; 4; 5]) /\
  length (Deque.appends 3 [1; 2] [3; 4; 5]) <= 3.
Proof.
  apply (@deque_appends_from nat 3 [1; 2] [3; 4; 5]). simpl. lia.
Defined.

(** ** The series of a plot *)




(** ** The limits of the time axis *)

Lemma fold_min_spec (l : list N) :
  forall x,
    In (fold_left N.min l x) (x :: l) /\
    forall y, In y (x :: l) -> (fold_left N.min l x <= y)%N.
Proof.
  induction l as [ | a l IH]; intros x; cbn [fold_left].
  - split; [now left | ]. intros y [<- | []]. apply N.le_refl.
  - destruct (IH (N.min x a)) as [Hin Hle]. split.
    + destruct Hin as [Hin | Hin]; [ | right; now right].
      rewrite <- Hin. destruct (N.min_spec x a) as [[_ ->] | [_ ->]];
        [now left | right; now left].
    + intros y [<- | [<- | Hy]].
      * etransitivity; [apply Hle; now left | apply N.le_min_l].
      * etransitivity; [apply Hle; now left | apply N.le_min_r].
      * apply Hle. now right.
Qed.

Lemma fold_max_spec (l : list N) :
  forall x,
    In (fold_left N.max l x) (x :: l) /\
    forall y, In y (x :: l) -> (y <= fold_left N.max l x)%N.
Proof.
  induction l as [ | a l IH]; intros x; cbn [fold_left].
  - split; [now left | ]. intros y [<- | []]. apply N.le_refl.
  - destruct (IH (N.max x a)) as [Hin Hle]. split.
    + destruct Hin as [Hin | Hin]; [ | right; now right].
      rewrite <- Hin. destruct (N.max_spec x a) as [[_ ->] | [_ ->]];
        [right; now left | now left].
    + intros y [<- | [<- | Hy]].
      * etransitivity; [apply N.le_max_l | apply Hle; now left].
      * etransitivity; [apply N.le_max_r | apply Hle; now left].
      * apply Hle. now right.
Qed.

(** X14.  On a deque that is not empty the limits of the time axis are the
    clock values of two of its readings, and the clock value of every
    reading of the deque lies between them. *)
Theorem xlim_covers_deque (data : list reading) :
  data <> [] ->
  exists lo hi,
    set_xlim data = Return (lo, hi) /\
    In lo (map (fun r => fst (fst (fst r))) data) /\
    In hi (map (fun r => fst (fst (fst r))) data) /\
    forall r, In r data -> (lo <= fst (fst (fst r)) <= hi)%N.
Proof.
  intros Hne. destruct data as [ | r0 data]; [congruence | ].
  unfold set_xlim, plot_trends, zip_star.
  cbn [Py.bind map py_min py_max].
  set (t0 := fst (fst (fst r0))).
  set (ts := map (fun r => fst (fst (fst r))) data).
  destruct (fold_min_spec ts t0) as [Hmin_in Hmin].
  destruct (fold_max_spec ts t0) as [Hmax_in Hmax].
  eexists _, _. split; [reflexivity | ].
  split; [exact Hmin_in | split; [exact Hmax_in | ]].
  intros r Hr.
  assert (Hin : In (fst (fst (fst r))) (t0 :: ts)).
  { destruct Hr as [<- | Hr]; [now left | right].
    unfold ts. now apply (in_map (fun r => fst (fst (fst r)))). }
  split; [now apply Hmin | now apply Hmax].
Qed.

Lemma xlim_covers_deque_sample :
  exists lo hi,
    set_xlim [reading_of 5%N 450%N 1234%N 465%N; reading_of 3%N 451%N 1230%N 470%N] = Return (lo, hi) /\
    In lo (map (fun r => fst (fst (fst r)))
             [reading_of 5%N 450%N 1234%N 465%N; reading_of 3%N 451%N 1230%N 470%N]) /\
    In hi (map (fun r => fst (fst (fst r)))
             [reading_of 5%N 450%N 1234%N 465%N; reading_of 3%N 451%N 1230%N 470%N]) /\
    forall r, In r [reading_of 5%N 450%N 1234%N 465%N; reading_of 3%N 451%N 1230%N 470%N] ->
              (lo <= fst (fst (fst r)) <= hi)%N.
Proof.
  apply (@xlim_covers_deque [reading_of 5%N 450%N 1234%N 465%N; reading_of 3%N 451%N 1230%N 470%N]).
  discriminate.
Defined.

(** ** The directory of the CSV file *)

Section Paths.

Import Posixpath.

Lemma rfind_sep_none (b : list N) : ~ In sep b -> rfind_sep b = (-1)%Z.
Proof.
  induction b as [ | c b IH]; intros Hb; [reflexivity | ].
  cbn [rfind_sep]. rewrite IH by (intros H; apply Hb; now right).
  cbn. destruct (N.eqb_spec c sep) as [-> | ]; [ | reflexivity].
  exfalso. apply Hb. now left.
Qed.

Lemma rfind_sep_last (a b : list N) :
  ~ In sep b -> rfind_sep (a ++ sep :: b) = Z.of_nat (length a).
Proof.
  intros Hb. induction a as [ | c a IH].
  - cbn [app rfind_sep length]. rewrite (@rfind_sep_none b Hb). reflexivity.
  - cbn [app rfind_sep length]. rewrite IH.
    destruct (Z.leb_spec 0 (Z.of_nat (length a))); lia.
Qed.

Lemma rfind_sep_found (p : list N) : In sep p -> (0 <= rfind_sep p)%Z.
Proof.
  induction p as [ | c p IH]; intros Hin; [destruct Hin | ].
  cbn [rfind_sep]. destruct (Z.leb_spec 0 (rfind_sep p)) as [Hge | Hlt]; [lia | ].
  destruct Hin as [-> | Hin]; [reflexivity | ].
  apply IH in Hin. lia.
Qed.

Lemma rstrip_sep_snoc (a : list N) : rstrip_sep (a ++ [sep]) = rstrip_sep a.
Proof.
  induction a as [ | c a IH]; [reflexivity | ].
  cbn [app rstrip_sep]. now rewrite IH.
Qed.

Lemma only_sep_snoc (a : list N) : only_sep (a ++ [sep]) = only_sep a.
Proof. unfold only_sep. rewrite forallb_app. cbn. apply andb_true_r. Qed.

Lemma rstrip_sep_nil (p : list N) : rstrip_sep p = [] -> only_sep p = true.
Proof.
  induction p as [ | c p IH]; [reflexivity | ].
  cbn [rstrip_sep only_sep forallb].
  destruct (rstrip_sep p) as [ | x r]; [ | discriminate].
  destruct (c =? sep)%N; [ | discriminate].
  intros _. now apply IH.
Qed.

Lemma endswith_sep_snoc (a : list N) :
  endswith_sep a = true -> exists a', a = a' ++ [sep].
Proof.
  induction a as [ | c a IH]; [discriminate | ].
  destruct a as [ | c' a].
  - cbn. intros H. apply N.eqb_eq in H. subst. now exists [].
  - intros H. destruct (IH H) as [a' Ha']. exists (c :: a'). cbn [app]. now f_equal.
Qed.

Lemma endswith_sep_not (a : list N) :
  a <> [] -> endswith_sep a = false -> only_sep a = false /\ rstrip_sep a = a.
Proof.
  induction a as [ | c a IH]; [congruence | ]. intros _ H.
  destruct a as [ | c' a].
  - cbn in *. now rewrite H.
  - destruct IH as [Ho Hr]; [discriminate | exact H | ].
    cbn [only_sep forallb] in *. rewrite Ho, andb_false_r.
    split; [reflexivity | ]. cbn [rstrip_sep] in *. now rewrite Hr.
Qed.

Lemma dirname_last (a b : list N) :
  ~ In sep b ->
  dirname (a ++ sep :: b) =
  if only_sep a then a ++ [sep] else rstrip_sep a.
Proof.
  intros Hb. unfold dirname. rewrite (@rfind_sep_last a b Hb).
  replace (Z.to_nat (Z.of_nat (length a) + 1)) with (length a + 1) by lia.
  replace (a ++ sep :: b) with ((a ++ [sep]) ++ b) by now rewrite <- app_assoc.
  rewrite firstn_app, firstn_all2 by (rewrite length_app; simpl; lia).
  rewrite length_app. cbn [length].
  replace (length a + 1 - (length a + 1)) with 0 by lia.
  cbn [firstn]. rewrite app_nil_r, only_sep_snoc, rstrip_sep_snoc.
  destruct (a ++ [sep]) eqn:E; [ | reflexivity].
  apply app_eq_nil in E. destruct E as [_ E]. discriminate E.
Qed.

Lemma dirname_with_sep (p : list N) :
  In sep p -> exists c r, dirname p = c :: r.
Proof.
  intros Hin. pose proof (@rfind_sep_found p Hin) as Hi.
  unfold dirname.
  destruct p as [ | x p]; [destruct Hin | ].
  replace (Z.to_nat (rfind_sep (x :: p) + 1))
    with (S (Z.to_nat (rfind_sep (x :: p)))) by lia.
  cbn [firstn].
  set (head := x :: firstn _ p).
  destruct (only_sep head) eqn:Ho; [unfold head; eauto | ].
  destruct (rstrip_sep head) as [ | c r] eqn:Hr; [ | eauto].
  apply rstrip_sep_nil in Hr. congruence.
Qed.

Lemma chosen_dir_not_empty (file_dir : list N) : chosen_dir file_dir <> [].
Proof. destruct file_dir; discriminate. Qed.

Lemma file_path_chosen (file_name file_dir : list N) :
  file_path file_name file_dir =
  join (chosen_dir file_dir) (file_name ++ str ".csv").
Proof. reflexivity. Qed.

End Paths.

(** X15.  The directory given to [os.makedirs] is never the empty path,
    whatever the user answers to the two prompts. *)
Theorem csv_dir_not_empty (file_name file_dir : list N) :
  exists c p, csv_dir file_name file_dir = c :: p.
Proof.
  unfold csv_dir. apply dirname_with_sep. rewrite file_path_chosen.
  pose proof (chosen_dir_not_empty file_dir) as Hd.
  unfold Posixpath.join.
  destruct (file_name ++ str ".csv") as [ | c b] eqn:Eb.
  { apply app_eq_nil in Eb. destruct Eb as [_ Eb]. discriminate Eb. }
  cbn [Posixpath.startswith_sep].
  destruct (N.eqb_spec c Posixpath.sep) as [-> | Hc]; [now left | ].
  destruct (chosen_dir file_dir) as [ | x d] eqn:Ed; [congruence | ].
  destruct (Posixpath.endswith_sep (x :: d)) eqn:He.
  - apply endswith_sep_snoc in He. destruct He as [a' ->].
    apply in_or_app. left. apply in_or_app. right. now left.
  - apply in_or_app. right. now left.
Qed.

(** X16.  When the file name has no separator, the CSV file is created in
    the directory in force: the directory that the user gave, without its
    trailing separators (kept when it consists of separators only), and
    [/home/cnce] when the user gave none. *)
Theorem csv_dir_plain_name (file_name file_dir : list N) :
  ~ In Posixpath.sep file_name ->
  csv_dir file_name file_dir =
    (if Posixpath.only_sep (chosen_dir file_dir) then chosen_dir file_dir
     else Posixpath.rstrip_sep (chosen_dir file_dir)) /\
  (file_dir = [] -> csv_dir file_name file_dir = default_dir).
Proof.
  intros Hname.
  assert (Hb : ~ In Posixpath.sep (file_name ++ str ".csv")).
  { intros H. apply in_app_or in H. destruct H as [H | H]; [tauto | ].
    vm_compute in H. intuition discriminate. }
  assert (Hmain : csv_dir file_name file_dir =
                  if Posixpath.only_sep (chosen_dir file_dir) then chosen_dir file_dir
                  else Posixpath.rstrip_sep (chosen_dir file_dir)).
  { unfold csv_dir. rewrite file_path_chosen.
    pose proof (chosen_dir_not_empty file_dir) as Hd.
    unfold Posixpath.join.
    assert (Hs : Posixpath.startswith_sep (file_name ++ str ".csv") = false).
    { destruct (file_name ++ str ".csv") as [ | c b]; [reflexivity | ].
      cbn. destruct (N.eqb_spec c Posixpath.sep) as [-> | ]; [ | reflexivity].
      exfalso. apply Hb. now left. }
    rewrite Hs.
    destruct (chosen_dir file_dir) as [ | x d] eqn:Ed; [congruence | ].
    destruct (Posixpath.endswith_sep (x :: d)) eqn:He.
    - apply endswith_sep_snoc in He. destruct He as [a' Ha']. rewrite Ha'.
      rewrite <- app_assoc. cbn [app]. rewrite (@dirname_last a' _ Hb).
      rewrite only_sep_snoc, rstrip_sep_snoc. reflexivity.
    - rewrite (@dirname_last (x :: d) _ Hb).
      destruct (@endswith_sep_not (x :: d)) as [Ho Hr]; [discriminate | exact He | ].
      now rewrite Ho. }
  split; [exact Hmain | ].
  intros ->. rewrite Hmain. reflexivity.
Qed.

Lemma csv_dir_plain_name_sample :
  csv_dir (str "run1") (str "/data/logs//") =
    (if Posixpath.only_sep (chosen_dir (str "/data/logs//"))
     then chosen_dir (str "/data/logs//")
     else Posixpath.rstrip_sep (chosen_dir (str "/data/logs//"))) /\
  (str "/data/logs//" = [] -> csv_dir (str "run1") (str "/data/logs//") = default_dir).
Proof.
  apply (@csv_dir_plain_name (str "run1") (str "/data/logs//")).
  vm_compute. intuition discriminate.
Defined.

(** ** The code points that the decoder produces *)

Section Scalars.

Import Utf8.

Local Open Scope N_scope.

Lemma lor_shiftl_low (a n b : N) :
  b < 2 ^ n -> N.lor (N.shiftl a n) b = a * 2 ^ n + b.
Proof.
  intros Hb.
  assert (H : N.land (N.shiftl a n) b = 0).
  { apply N.bits_inj_0. intros m. rewrite N.land_spec.
    destruct (N.lt_ge_cases m n) as [Hlt | Hge].
    - now rewrite N.shiftl_spec_low.
    - rewrite <- (N.mod_small b (2 ^ n)) by assumption.
      rewrite N.mod_pow2_bits_high by assumption. apply andb_false_r. }
  rewrite <- N.lxor_lor by assumption.
  rewrite <- N.add_nocarry_lxor by assumption.
  now rewrite N.shiftl_mul_pow2.
Qed.

Lemma low6_mod (b : N) : low6 b = b mod 64.
Proof. unfold low6. change 0x3F with (N.ones 6). now rewrite N.land_ones. Qed.

Lemma low6_lt (b : N) : low6 b < 64.
Proof. rewrite low6_mod. now apply N.mod_lt. Qed.

Lemma cp2_sum (b0 b1 : N) : cp2 b0 b1 = (b0 mod 32) * 64 + b1 mod 64.
Proof.
  unfold cp2. rewrite (lor_shiftl_low _ 6) by apply low6_lt.
  change 0x1F with (N.ones 5). now rewrite N.land_ones, low6_mod.
Qed.

Lemma cp3_sum (b0 b1 b2 : N) :
  cp3 b0 b1 b2 = (b0 mod 16) * 4096 + ((b1 mod 64) * 64 + b2 mod 64).
Proof.
  unfold cp3. rewrite (lor_shiftl_low (low6 b1) 6) by apply low6_lt.
  rewrite (lor_shiftl_low _ 12).
  - change 0x0F with (N.ones 4). now rewrite N.land_ones, !low6_mod.
  - pose proof (low6_lt b1). pose proof (low6_lt b2).
    change (2 ^ 6) with 64. change (2 ^ 12) with 4096. lia.
Qed.

Lemma cp4_sum (b0 b1 b2 b3 : N) :
  cp4 b0 b1 b2 b3 =
  (b0 mod 8) * 262144 + ((b1 mod 64) * 4096 + ((b2 mod 64) * 64 + b3 mod 64)).
Proof.
  unfold cp4. pose proof (low6_lt b1). pose proof (low6_lt b2). pose proof (low6_lt b3).
  rewrite (lor_shiftl_low (low6 b2) 6) by assumption.
  rewrite (lor_shiftl_low (low6 b1) 12)
    by (change (2 ^ 6) with 64; change (2 ^ 12) with 4096; lia).
  rewrite (lor_shiftl_low _ 18)
    by (change (2 ^ 6) with 64; change (2 ^ 12) with 4096;
        change (2 ^ 18) with 262144; lia).
  change 0x07 with (N.ones 3). now rewrite N.land_ones, !low6_mod.
Qed.

(** Quotient and remainder of [x] by the constant [c], as fresh variables
    for [lia]. *)
Ltac euclid x c :=
  let Hd := fresh in
  let Hm := fresh in
  pose proof (N.div_mod x c ltac:(discriminate)) as Hd;
  pose proof (N.mod_lt x c ltac:(discriminate)) as Hm;
  generalize dependent (x mod c); generalize dependent (x / c); intros.

Lemma width_cases (b0 : N) :
  (width b0 = 0%nat /\ b0 < 0x80) \/
  (width b0 = 1%nat /\ 0xC2 <= b0 <= 0xDF) \/
  (width b0 = 2%nat /\ 0xE0 <= b0 <= 0xEF) \/
  (width b0 = 3%nat /\ 0xF0 <= b0 <= 0xF4) \/
  width b0 = 4%nat.
Proof.
  unfold width, between.
  destruct (N.ltb_spec b0 0x80); [left; split; [reflexivity | assumption] | right].
  destruct (N.leb_spec 0xC2 b0), (N.leb_spec b0 0xDF); cbn [andb];
    try (left; split; [reflexivity | lia]); right;
    (destruct (N.leb_spec 0xE0 b0), (N.leb_spec b0 0xEF); cbn [andb];
     try (left; split; [reflexivity | lia]); right;
     (destruct (N.leb_spec 0xF0 b0), (N.leb_spec b0 0xF4); cbn [andb];
      try (left; split; [reflexivity | lia]); right; reflexivity)).
Qed.

Lemma cont_range (b : N) : cont b = true -> 0x80 <= b <= 0xBF.
Proof.
  unfold cont, between. rewrite andb_true_iff, !N.leb_le. tauto.
Qed.

Lemma second_range (b0 b1 : N) :
  second_ok b0 b1 = true ->
  0x80 <= b1 <= 0xBF /\
  (b0 = 0xE0 -> 0xA0 <= b1) /\ (b0 = 0xF0 -> 0x90 <= b1) /\
  (b0 = 0xED -> b1 <= 0x9F) /\ (b0 = 0xF4 -> b1 <= 0x8F).
Proof.
  unfold second_ok, between, second_lo, second_hi.
  rewrite andb_true_iff, !N.leb_le.
  destruct (N.eqb_spec b0 0xE0), (N.eqb_spec b0 0xF0),
    (N.eqb_spec b0 0xED), (N.eqb_spec b0 0xF4); lia.
Qed.

Lemma cp2_scalar (b0 b1 : N) :
  0xC2 <= b0 <= 0xDF -> cont b1 = true -> scalar (cp2 b0 b1).
Proof.
  intros H0 H1. apply cont_range in H1. rewrite cp2_sum. unfold scalar.
  euclid b0 32. euclid b1 64. lia.
Qed.

Lemma cp3_scalar (b0 b1 b2 : N) :
  0xE0 <= b0 <= 0xEF -> second_ok b0 b1 = true -> cont b2 = true ->
  scalar (cp3 b0 b1 b2).
Proof.
  intros H0 H1 H2. apply second_range in H1. apply cont_range in H2.
  rewrite cp3_sum. unfold scalar.
  euclid b0 16. euclid b1 64. euclid b2 64. lia.
Qed.

Lemma cp4_scalar (b0 b1 b2 b3 : N) :
  0xF0 <= b0 <= 0xF4 -> second_ok b0 b1 = true ->
  cont b2 = true -> cont b3 = true ->
  scalar (cp4 b0 b1 b2 b3).
Proof.
  intros H0 H1 H2 H3. apply second_range in H1.
  apply cont_range in H2. apply cont_range in H3.
  rewrite cp4_sum. unfold scalar.
  euclid b0 8. euclid b1 64. euclid b2 64. euclid b3 64. lia.
Qed.

Lemma push_some (c : N) (r : option (list N)) (s : list N) :
  push c r = Some s -> exists s', r = Some s' /\ s = c :: s'.
Proof.
  destruct r as [s' | ]; [ | discriminate]. intros [= <-]. eauto.
Qed.

Lemma decode_scalars (n : nat) :
  forall bs s,
    (length bs <= n)%nat -> decode bs = Some s ->
    Forall scalar s /\ (length s <= length bs)%nat.
Proof.
  induction n as [ | n IH]; intros bs s Hlen Hdec.
  - destruct bs; [ | simpl in Hlen; lia].
    injection Hdec as <-. split; [constructor | apply Nat.le_refl].
  - destruct bs as [ | x0 r0].
    { injection Hdec as <-. split; [constructor | apply Nat.le_refl]. }
    cbn [length] in Hlen. cbn [decode] in Hdec.
    destruct (width_cases (Byte.to_N x0))
      as [[Hw H0] | [[Hw H0] | [[Hw H0] | [[Hw H0] | Hw]]]];
      rewrite Hw in Hdec; [ | | | | discriminate].
    + apply push_some in Hdec. destruct Hdec as (s' & Hr & ->).
      destruct (IH r0 s') as [Hs Hl]; [lia | assumption | ].
      split; [constructor; [unfold scalar; lia | assumption] | cbn [length]; lia].
    + destruct r0 as [ | x1 r1]; [discriminate | ].
      destruct (cont (Byte.to_N x1)) eqn:H1; [ | discriminate].
      apply push_some in Hdec. destruct Hdec as (s' & Hr & ->).
      cbn [length] in Hlen.
      destruct (IH r1 s') as [Hs Hl]; [lia | assumption | ].
      split; [constructor; [now apply cp2_scalar | assumption] | cbn [length]; lia].
    + destruct r0 as [ | x1 [ | x2 r2]]; try discriminate.
      destruct (second_ok _ _) eqn:H1; cbn [andb] in Hdec; [ | discriminate].
      destruct (cont (Byte.to_N x2)) eqn:H2; [ | discriminate].
      apply push_some in Hdec. destruct Hdec as (s' & Hr & ->).
      cbn [length] in Hlen.
      destruct (IH r2 s') as [Hs Hl]; [lia | assumption | ].
      split; [constructor; [now apply cp3_scalar | assumption] | cbn [length]; lia].
    + destruct r0 as [ | x1 [ | x2 [ | x3 r3]]]; try discriminate.
      destruct (second_ok _ _) eqn:H1; cbn [andb] in Hdec; [ | discriminate].
      destruct (cont (Byte.to_N x2)) eqn:H2; cbn [andb] in Hdec; [ | discriminate].
      destruct (cont (Byte.to_N x3)) eqn:H3; [ | discriminate].
      apply push_some in Hdec. destruct Hdec as (s' & Hr & ->).
      cbn [length] in Hlen.
      destruct (IH r3 s') as [Hs Hl]; [lia | assumption | ].
      split; [constructor; [now apply cp4_scalar | assumption] | cbn [length]; lia].
Qed.

End Scalars.

(** X17.  Whatever the bytes, the text that [decode] returns holds Unicode
    scalar values only, no surrogate and nothing above U+10FFFF, and has at
    most as many characters as there are bytes. *)
Theorem decode_scalar_values (bs : list byte) (s : list N) :
  Utf8.decode bs = Some s ->
  Forall scalar s /\ length s <= length bs.
Proof. intros H. apply (@decode_scalars (length bs) bs s (Nat.le_refl _) H). Qed.

Lemma decode_scalar_values_sample :
  Forall scalar [72; 233; 8364; 128512]%N /\
  length [72; 233; 8364; 128512]%N <=
  length [Byte.x48; Byte.xc3; Byte.xa9; Byte.xe2; Byte.x82; Byte.xac;
          Byte.xf0; Byte.x9f; Byte.x98; Byte.x80].
Proof.
  apply (@decode_scalar_values
           [Byte.x48; Byte.xc3; Byte.xa9; Byte.xe2; Byte.x82; Byte.xac;
            Byte.xf0; Byte.x9f; Byte.x98; Byte.x80]
           [72; 233; 8364; 128512]%N).
  vm_compute. reflexivity.
Defined.

(** ** What follows the third group *)

Lemma leading_digits_split (s : list N) :
  exists rest,
    s = leading_digits s ++ rest /\
    forallb Unicode.isdecimal (leading_digits s) = true /\
    stops Unicode.isdecimal rest.
Proof.
  induction s as [ | c s (rest & Hs & Hd & Hr)].
  - exists []. cbn. auto.
  - cbn [leading_digits]. destruct (Unicode.isdecimal c) eqn:Hc.
    + exists rest. cbn [app forallb]. rewrite Hc, Hd. rewrite <- Hs. auto.
    + exists (c :: s). cbn. auto.
Qed.

(** X18.  The first frame of a line wins, and what follows it is ignored
    but for one thing: with no H before the frame, the groups captured are
    the digits of H and of T and, for Z, its digits together with every
    digit that follows them directly. *)
Theorem search_takes_following_digits (pre w1 d1 w2 w3 d2 w4 w5 d3 post : list N) :
  blank w1 -> number d1 -> blank w2 ->
  blank w3 -> number d2 -> blank w4 ->
  blank w5 -> number d3 ->
  ~ In (ord "H") pre ->
  Re.search pattern (pre ++ spaced w1 d1 w2 w3 d2 w4 w5 d3 post) =
  Some [d1; d2; d3 ++ leading_digits post].
Proof.
  intros B1 N1 B2 B3 N2 B4 B5 N3 Hpre.
  destruct (leading_digits_split post) as (rest & Hpost & Hd & Hr).
  rewrite Hpost at 1. rewrite spaced_post.
  apply search_spaced_exact; try assumption. now apply number_app.
Qed.

Lemma search_takes_following_digits_sample :
  Re.search pattern (str "co2: H450 T1234 Z465" ++ str "77 H1 T2 Z3") =
  Some [str "450"; str "1234"; str "465" ++ leading_digits (str "77 H1 T2 Z3")].
Proof.
  apply (@search_takes_following_digits (str "co2: ") [] (str "450") (str " ") []
           (str "1234") (str " ") [] (str "465") (str "77 H1 T2 Z3"));
    try (vm_compute; reflexivity);
    try (split; [discriminate | vm_compute; reflexivity]).
  vm_compute. intuition discriminate.
Defined.

(** ** Where a match begins *)



(** ** Where a reading comes from *)

Lemma match_here_pattern_shape (s : list N) (m : list (list N)) :
  Re.match_here pattern s = Some m ->
  exists w1 d1 w2 w3 d2 w4 w5 d3 post,
    s = spaced w1 d1 w2 w3 d2 w4 w5 d3 post /\ m = [d1; d2; d3] /\
    (blank w1 /\ blank w2 /\ blank w3 /\ blank w4 /\ blank w5) /\
    (number d1 /\ number d2 /\ number d3).
Proof.
  unfold pattern. intros H.
  apply match_lit_inv in H. destruct H as (s0 & -> & H).
  apply match_star_inv in H. destruct H as (w1 & s1 & -> & B1 & H).
  apply match_group_inv in H.
  destruct H as (d1 & s2 & m1 & -> & Hne1 & Hd1 & H & ->).
  apply match_star_inv in H. destruct H as (w2 & s3 & -> & B2 & H).
  apply match_lit_inv in H. destruct H as (s4 & -> & H).
  apply match_star_inv in H. destruct H as (w3 & s5 & -> & B3 & H).
  apply match_group_inv in H.
  destruct H as (d2 & s6 & m2 & -> & Hne2 & Hd2 & H & ->).
  apply match_star_inv in H. destruct H as (w4 & s7 & -> & B4 & H).
  apply match_lit_inv in H. destruct H as (s8 & -> & H).
  apply match_star_inv in H. destruct H as (w5 & s9 & -> & B5 & H).
  apply match_group_inv in H.
  destruct H as (d3 & post & m3 & -> & Hne3 & Hd3 & H & ->).
  cbn [Re.match_here] in H. injection H as <-.
  exists w1, d1, w2, w3, d2, w4, w5, d3, post.
  unfold number, blank. cbn [Re.in_class] in *. repeat split; assumption.
Qed.

(** X20.  A reading is never made up: whenever [extract_values] returns
    one, the decoded line does contain H, digits, T, digits, Z, digits in
    this order with white space only between them, and the three values
    of the reading are computed from exactly these digits. *)
Theorem reading_has_source
    (now : datetime) (bs : list byte) (d : datetime) (h t : Q) (z : Z) :
  extract_values now bs = Return (Some d, Some h, Some t, Some z) ->
  exists pre w1 d1 w2 w3 d2 w4 w5 d3 post a b,
    Utf8.decode bs = Some (pre ++ spaced w1 d1 w2 w3 d2 w4 w5 d3 post) /\
    (blank w1 /\ blank w2 /\ blank w3 /\ blank w4 /\ blank w5) /\
    (number d1 /\ number d2 /\ number d3) /\
    int d1 = Return a /\ h = truediv a 10 /\
    int d2 = Return b /\ t = truediv (b - 1000) 10 /\
    int d3 = Return z.
Proof.
  intros H.
  destruct (extract_values_cases now bs)
    as [[_ He] | [(s & _ & _ & He) | (s & g1 & g2 & g3 & a & b & c & Hd & Hs & Ha & Hb & Hc & He)]];
    rewrite He in H; try discriminate.
  unfold parsed in H. injection H as <- <- <- <-.
  apply search_inv in Hs. destruct Hs as (pre & rest & -> & Hm).
  apply match_here_pattern_shape in Hm.
  destruct Hm as (w1 & d1 & w2 & w3 & d2 & w4 & w5 & d3 & post & -> & Hg & HB & N1 & N2 & N3).
  injection Hg as -> -> ->.
  exists pre, w1, d1, w2, w3, d2, w4, w5, d3, post, (Z.of_N a), (Z.of_N b).
  destruct (int_number N1) as (a' & Ha' & Hi1).
  destruct (int_number N2) as (b' & Hb' & Hi2).
  destruct (int_number N3) as (c' & Hc' & Hi3).
  assert (a' = a) by congruence. assert (b' = b) by congruence.
  assert (c' = c) by congruence. subst.
  destruct HB as (B1 & B2 & B3 & B4 & B5).
  repeat match goal with |- _ /\ _ => split end;
    try assumption; reflexivity.
Qed.

Lemma reading_has_source_sample :
  exists pre w1 d1 w2 w3 d2 w4 w5 d3 post a b,
    Utf8.decode (bytes "x H 450T1234 Z465;") =
      Some (pre ++ spaced w1 d1 w2 w3 d2 w4 w5 d3 post) /\
    (blank w1 /\ blank w2 /\ blank w3 /\ blank w4 /\ blank w5) /\
    (number d1 /\ number d2 /\ number d3) /\
    int d1 = Return a /\ (450 # 10)%Q = truediv a 10 /\
    int d2 = Return b /\ (234 # 10)%Q = truediv (b - 1000) 10 /\
    int d3 = Return 465%Z.
Proof.
  apply (@reading_has_source 3%N (bytes "x H 450T1234 Z465;") 3%N
           (450 # 10)%Q (234 # 10)%Q 465%Z).
  vm_compute. reflexivity.
Defined.
